(** * Contrast checker: colour normalisation, luminance and WCAG levels

    A shallow embedding of the core of [app/routes/_index.tsx]:
    [namedColors], [normalizeColor], [toLinear], [relativeLuminance],
    [contrastRatio], [complianceLevel], [complianceLevelLarge] and the
    server [action].

    Conventions of the embedding.
    - A JavaScript string is a sequence of code units; the model uses
      [string], i.e. code units below 256, on which [trim] and
      [toLowerCase] are written out exactly.
    - A JavaScript number is an IEEE 754 binary64 value: [float], with the
      primitive operations of the kernel.
    - [throw] is an explicit result type, [Completion].
    - [Math.pow] (the [**] operator) is implementation-approximated in
      ECMAScript; it is a parameter of the numeric part. *)

From Stdlib Require Import String Ascii List Bool Arith ZArith Lia.
From Stdlib Require Import Floats Uint63.
Import ListNotations.

Set Warnings "-inexact-float".

Local Open Scope string_scope.
Local Open Scope bool_scope.

(** ** JavaScript values and completions *)

(** The values [normalizeColor] can hand back at run time: a string, or,
    through the prototype chain of the object literal, a member of
    [Object.prototype] (named here by its property key). *)
Inductive JSValue : Type :=
| JSUndefined
| JSString (s : string)
| JSObject (inheritedKey : string).

Inductive JSError : Type :=
| Error (message : string)
| TypeError.

Inductive Completion (A : Type) : Type :=
| Normal (a : A)
| Throw (e : JSError).

Arguments Normal {A} a.
Arguments Throw {A} e.

Definition bind {A B : Type} (c : Completion A) (k : A -> Completion B)
  : Completion B :=
  match c with
  | Normal a => k a
  | Throw e => Throw e
  end.

Notation "'let*' x ':=' c 'in' k" := (bind c (fun x => k))
  (at level 61, x name, c at next level, right associativity).

(** ToBoolean, on the values above. *)
Definition truthy (v : JSValue) : bool :=
  match v with
  | JSUndefined => false
  | JSString s => negb (s =? "")
  | JSObject _ => true
  end.

(** ** String primitives *)

Definition code (c : ascii) : nat := nat_of_ascii c.

(** WhiteSpace and LineTerminator code units below 256:
    TAB, LF, VT, FF, CR, SP, NBSP. *)
Definition isWhiteSpace (c : ascii) : bool :=
  let n := code c in
  (((9 <=? n) && (n <=? 13)) || (n =? 32) || (n =? 160))%nat.

Fixpoint trimStart (s : string) : string :=
  match s with
  | EmptyString => EmptyString
  | String c r => if isWhiteSpace c then trimStart r else s
  end.

Fixpoint trimEnd (s : string) : string :=
  match s with
  | EmptyString => EmptyString
  | String c r =>
      match trimEnd r with
      | EmptyString => if isWhiteSpace c then EmptyString else String c EmptyString
      | r' => String c r'
      end
  end.

(** [String.prototype.trim] *)
Definition trim (s : string) : string := trimEnd (trimStart s).

(** Lower-casing of one code unit below 256: A-Z, and the Latin-1 capitals
    U+00C0..U+00DE except the multiplication sign U+00D7. *)
Definition toLowerCaseChar (c : ascii) : ascii :=
  let n := code c in
  if (((65 <=? n) && (n <=? 90))
      || ((192 <=? n) && (n <=? 222) && negb (n =? 215)))%nat
  then ascii_of_nat (n + 32)
  else c.

(** [String.prototype.toLowerCase] *)
Fixpoint toLowerCase (s : string) : string :=
  match s with
  | EmptyString => EmptyString
  | String c r => String (toLowerCaseChar c) (toLowerCase r)
  end.

(** [val.startsWith("#")] *)
Definition startsWithHash (s : string) : bool :=
  match s with
  | String "#" _ => true
  | _ => false
  end.

(** [val.replace(/^#/, "")]: removes one leading '#', if there is one. *)
Definition replaceLeadingHash (s : string) : string :=
  match s with
  | String "#" r => r
  | _ => s
  end.

(** The character class [[0-9a-f]]. *)
Definition isHexLower (c : ascii) : bool :=
  let n := code c in
  (((48 <=? n) && (n <=? 57)) || ((97 <=? n) && (n <=? 102)))%nat.

(** [[0-9a-f]{n}$] *)
Fixpoint hexDigits (n : nat) (s : string) : bool :=
  match n, s with
  | O, EmptyString => true
  | S n', String c r => isHexLower c && hexDigits n' r
  | _, _ => false
  end.

(** [/^#[0-9a-f]{6}$/.test(val)] *)
Definition testHexPattern (s : string) : bool :=
  match s with
  | String "#" r => hexDigits 6 r
  | _ => false
  end.

(** ** The named-colour table and property lookup *)

Definition namedColors : list (string * string) :=
  [ ("red", "#ff0000");
    ("blue", "#0000ff");
    ("green", "#008000");
    ("black", "#000000");
    ("white", "#ffffff");
    ("gray", "#808080");
    ("silver", "#c0c0c0");
    ("lime", "#00ff00");
    ("navy", "#000080");
    ("maroon", "#800000");
    ("purple", "#800080");
    ("olive", "#808000");
    ("teal", "#008080");
    ("aqua", "#00ffff");
    ("yellow", "#ffff00");
    ("fuchsia", "#ff00ff");
    ("orange", "#ffa500") ].

(** The property keys of [Object.prototype], the prototype of every object
    literal (ECMAScript 20.1.3 and Annex B.2.2). Each of them holds a
    function, except [__proto__], whose getter returns [Object.prototype]
    itself; all are truthy. *)
Definition ObjectPrototypeKeys : list string :=
  [ "constructor"; "hasOwnProperty"; "isPrototypeOf";
    "propertyIsEnumerable"; "toLocaleString"; "toString"; "valueOf";
    "__proto__"; "__defineGetter__"; "__defineSetter__";
    "__lookupGetter__"; "__lookupSetter__" ].

Fixpoint ownProperty (tbl : list (string * string)) (k : string)
  : option string :=
  match tbl with
  | [] => None
  | (k', v) :: rest => if k =? k' then Some v else ownProperty rest k
  end.

Definition hasKey (keys : list string) (k : string) : bool :=
  existsb (String.eqb k) keys.

(** [namedColors[val]]: the own property if there is one, otherwise the
    property inherited from [Object.prototype], otherwise [undefined]. *)
Definition getNamedColor (val : string) : JSValue :=
  match ownProperty namedColors val with
  | Some hex => JSString hex
  | None =>
      if hasKey ObjectPrototypeKeys val then JSObject val else JSUndefined
  end.

(** ** normalizeColor *)

Definition InvalidColor : JSError := Error "Invalid color".

Definition normalizeColor (input : string) : Completion JSValue :=
  let val := toLowerCase (trim input) in
  if truthy (getNamedColor val) then Normal (getNamedColor val)
  else
    let val :=
      if negb (startsWithHash val)
      then "#" ++ replaceLeadingHash val
      else val in
    if negb (testHexPattern val) then Throw InvalidColor
    else Normal (JSString val).

(** The NormalizedColor invariant of the data model: seven characters,
    '#' first, then six lower-case hexadecimal digits. *)
Definition NormalizedColor (s : string) : Prop :=
  String.length s = 7 /\
  exists r, s = String "#" r /\
            forall i c, String.get i r = Some c -> isHexLower c = true.

(** ** Numbers *)

Local Open Scope float_scope.

(** The relational operator [>=] of IEEE 754 (false when an operand is NaN). *)
Definition geb (x y : float) : bool := y <=? x.
Infix ">=?" := geb (at level 70, no associativity) : float_scope.

Module Math.

(** [Math.max(x, y)]: NaN if an argument is NaN; +0 is larger than -0. *)
Definition max (x y : float) : float :=
  if is_nan x || is_nan y then nan
  else if (Leibniz.eqb y zero && Leibniz.eqb x neg_zero) || (x <? y) then y
  else x.

(** [Math.min(x, y)]: NaN if an argument is NaN; -0 is smaller than +0. *)
Definition min (x y : float) : float :=
  if is_nan x || is_nan y then nan
  else if (Leibniz.eqb y neg_zero && Leibniz.eqb x zero) || (y <? x) then y
  else x.

End Math.

(** The value of a digit in radix 16 ([0-9], [a-f], [A-F]). *)
Definition hexDigitValue (c : ascii) : option Z :=
  let n := code c in
  if ((48 <=? n) && (n <=? 57))%nat then Some (Z.of_nat (n - 48))
  else if ((97 <=? n) && (n <=? 102))%nat then Some (Z.of_nat (n - 87))
  else if ((65 <=? n) && (n <=? 70))%nat then Some (Z.of_nat (n - 55))
  else None.

(** The longest prefix of radix-16 digits, read as an integer; [None] when
    that prefix is empty. *)
Fixpoint parseHexDigits (acc : option Z) (s : string) : option Z :=
  match s with
  | EmptyString => acc
  | String c r =>
      match hexDigitValue c with
      | None => acc
      | Some d =>
          parseHexDigits
            (Some (16 * match acc with Some a => a | None => 0 end + d)%Z) r
      end
  end.

(** [Number.parseInt(s, 16)]: leading white space, a sign and a [0x]
    prefix are skipped; NaN when no digit follows. The conversion to a
    number is exact for the integers below 2^53, which covers the
    two-character slices the program parses. *)
Definition parseInt16 (s : string) : float :=
  let s := trimStart s in
  let '(negative, s) :=
    match s with
    | String "-" r => (true, r)
    | String "+" r => (false, r)
    | _ => (false, s)
    end in
  let s :=
    match s with
    | String "0" (String "x" r) => r
    | String "0" (String "X" r) => r
    | _ => s
    end in
  match parseHexDigits None s with
  | None => nan
  | Some n =>
      let f := of_uint63 (Uint63.of_Z n) in
      if negative then - f else f
  end.

(** [s.slice(b, e)] for indices [0 <= b <= e]. *)
Definition slice (s : string) (b e : nat) : string := substring b (e - b) s.

Inductive Level : Type := AAA | AA | Fail.

Definition complianceLevel (ratio : float) : Level :=
  if ratio >=? 7 then AAA
  else if ratio >=? 4.5 then AA
  else Fail.

Definition complianceLevelLarge (ratio : float) : Level :=
  if ratio >=? 4.5 then AAA
  else if ratio >=? 3 then AA
  else Fail.

Section Luminance.

(** [Math.pow], the [**] operator on numbers. *)
Variable pow : float -> float -> float.

Definition toLinear (value : float) : float :=
  let v := value / 255 in
  if v <=? 0.03928 then v / 12.92 else pow ((v + 0.055) / 1.055) 2.4.

Definition relativeLuminance (hex : string) : float :=
  let r := parseInt16 (slice hex 1 3) in
  let g := parseInt16 (slice hex 3 5) in
  let b := parseInt16 (slice hex 5 7) in
  let R := toLinear r in
  let G := toLinear g in
  let B := toLinear b in
  0.2126 * R + 0.7152 * G + 0.0722 * B.

Definition contrastRatio (fgHex bgHex : string) : float :=
  let fgLum := relativeLuminance fgHex in
  let bgLum := relativeLuminance bgHex in
  let L1 := Math.max fgLum bgLum in
  let L2 := Math.min fgLum bgLum in
  (L1 + 0.05) / (L2 + 0.05).

(** [contrastRatio] as the [action] calls it, on whatever
    [normalizeColor] returned: [hex.slice] is not a function unless
    [hex] is a string, and calling it throws a TypeError. The
    foreground is read first. *)
Definition contrastRatioDyn (fg bg : JSValue) : Completion float :=
  match fg, bg with
  | JSString fgHex, JSString bgHex => Normal (contrastRatio fgHex bgHex)
  | _, _ => Throw TypeError
  end.

(** The success payload of the action. *)
Record Report : Type := mkReport {
  report_contrastRatio : float;
  levelSmall : Level;
  levelLarge : Level;
  fg : JSValue;
  bg : JSValue
}.

(** The JSON answer: the report, or an error message with a status. *)
Inductive ActionData : Type :=
| Json (r : Report)
| JsonError (error : string) (status : Z).

(** The two fields of the submitted form; a missing field reads as [""]. *)
Record FormData : Type := mkForm {
  form_fg : option string;
  form_bg : option string
}.

Definition orEmpty (o : option string) : string :=
  match o with
  | Some s => s
  | None => ""%string
  end.

Definition action (request : FormData) : ActionData :=
  let fgInput := orEmpty (form_fg request) in
  let bgInput := orEmpty (form_bg request) in
  let attempt :=
    let* fg := normalizeColor fgInput in
    let* bg := normalizeColor bgInput in
    let* ratio := contrastRatioDyn fg bg in
    Normal (mkReport ratio (complianceLevel ratio)
              (complianceLevelLarge ratio) fg bg) in
  match attempt with
  | Normal r => Json r
  | Throw _ => JsonError "Invalid input." 400
  end.

End Luminance.

(** One admissible [Math.pow] for a positive base and a non-negative
    exponent, by the binary expansion of the exponent (repeated
    multiplication for its integer part, repeated square roots for its
    fraction). It instantiates the parameter [pow] where the model is run
    on concrete colours. *)
Fixpoint powInteger (fuel : nat) (x y acc : float) : float * float :=
  match fuel with
  | O => (acc, y)
  | S k => if 1 <=? y then powInteger k x (y - 1) (acc * x) else (acc, y)
  end.

Fixpoint powFraction (fuel : nat) (x f acc : float) : float :=
  match fuel with
  | O => acc
  | S k =>
      let r := PrimFloat.sqrt x in
      let f2 := f * 2 in
      if 1 <=? f2 then powFraction k r (f2 - 1) (acc * r)
      else powFraction k r f2 acc
  end.

Definition powBySquareRoots (x y : float) : float :=
  let '(a, f) := powInteger 64 x y 1 in
  powFraction 60 x f a.

Local Close Scope float_scope.

(** ** The page component [Index] *)

Module Index.

Inductive Lang : Type := ja | en.

(** The five pieces of state of the component. The inputs start from the
    colours of the submitted report, which are whatever the action put
    there. *)
Record State : Type := mkState {
  lang : Lang;
  fgInput : JSValue;
  bgInput : JSValue;
  fgIsValid : bool;
  bgIsValid : bool
}.

(** [normalizeColor] as the component calls it: [input.trim] is a
    function only when the input is a string. *)
Definition normalizeColorDyn (input : JSValue) : Completion JSValue :=
  match input with
  | JSString s => normalizeColor s
  | _ => Throw TypeError
  end.

(** The initial state, from [useActionData]: no data before a submit. *)
Definition initialState (data : option ActionData) : State :=
  mkState ja
    (match data with Some (Json r) => fg r | _ => JSString "#ffffff" end)
    (match data with Some (Json r) => bg r | _ => JSString "#000000" end)
    true true.

(** The local variables that the live preview is drawn from. *)
Record Locals : Type := mkLocals {
  fgNormalized : JSValue;
  bgNormalized : JSValue;
  ratio : float;
  levelSmall : Level;
  levelLarge : Level
}.

(** Their initial values: white on black. *)
Definition defaults : Locals :=
  mkLocals (JSString "#ffffff") (JSString "#000000") 21%float AAA AAA.

Section Render.

Variable pow : float -> float -> float.

(** The [try] block of the component body: the assignments made before a
    throw stay, the later variables keep their initial values. *)
Definition render (s : State) : Locals :=
  match normalizeColorDyn (fgInput s) with
  | Throw _ => defaults
  | Normal f =>
      match normalizeColorDyn (bgInput s) with
      | Throw _ =>
          mkLocals f (bgNormalized defaults) (ratio defaults)
            (levelSmall defaults) (levelLarge defaults)
      | Normal b =>
          match contrastRatioDyn pow f b with
          | Throw _ =>
              mkLocals f b (ratio defaults)
                (levelSmall defaults) (levelLarge defaults)
          | Normal r =>
              mkLocals f b r (complianceLevel r) (complianceLevelLarge r)
          end
      end
  end.

End Render.

(** One [try] of the effect: did [normalizeColor] return? *)
Definition returns (input : JSValue) : bool :=
  match normalizeColorDyn input with
  | Normal _ => true
  | Throw _ => false
  end.

(** The effect that follows a change of an input. *)
Definition effect (s : State) : State :=
  mkState (lang s) (fgInput s) (bgInput s)
    (returns (fgInput s)) (returns (bgInput s)).

Definition setFgInput (value : string) (s : State) : State :=
  mkState (lang s) (JSString value) (bgInput s) (fgIsValid s) (bgIsValid s).

Definition setBgInput (value : string) (s : State) : State :=
  mkState (lang s) (fgInput s) (JSString value) (fgIsValid s) (bgIsValid s).

Definition resetColors (s : State) : State :=
  mkState (lang s) (JSString "#ffffff") (JSString "#000000")
    (fgIsValid s) (bgIsValid s).

Definition toggleLanguage (s : State) : State :=
  mkState (match lang s with ja => en | en => ja end)
    (fgInput s) (bgInput s) (fgIsValid s) (bgIsValid s).

(** The live panel shows the numbers when [fgIsValid && bgIsValid]. *)
Definition panelShown (s : State) : bool := fgIsValid s && bgIsValid s.

(** The submit button: [disabled={!fgIsValid || !bgIsValid}]. *)
Definition submitDisabled (s : State) : bool :=
  negb (fgIsValid s) || negb (bgIsValid s).

End Index.

(** The trimmed, lower-cased input is one of the two keys that the
    table inherits and a lower-cased value can spell. *)
Definition isInheritedKey (input : string) : bool :=
  let val := toLowerCase (trim input) in
  (val =? "constructor") || (val =? "__proto__").

(** ** Vocabulary of the statements *)

(** The digits of [[0-9a-fA-F]]: what [[0-9a-f]] matches once the input
    has been lower-cased. *)
Definition isHexAnyCase (c : ascii) : bool :=
  isHexLower c || ((65 <=? code c) && (code c <=? 70))%nat.

Fixpoint hexDigitsAnyCase (n : nat) (s : string) : bool :=
  match n, s with
  | O, EmptyString => true
  | S n', String c r => isHexAnyCase c && hexDigitsAnyCase n' r
  | _, _ => false
  end.

(** [n] copies of '#'. *)
Fixpoint hashes (n : nat) : string :=
  match n with
  | O => EmptyString
  | S n' => String "#" (hashes n')
  end.

(** The characters that make up hex colour strings: '#' and the digits. *)
Definition isColorChar (c : ascii) : bool :=
  (code c =? 35)%nat || isHexAnyCase c.

Fixpoint allColorChars (s : string) : bool :=
  match s with
  | EmptyString => true
  | String c r => isColorChar c && allColorChars r
  end.

(** Some character is one of A-Z. *)
Fixpoint hasUpper (s : string) : bool :=
  match s with
  | EmptyString => false
  | String c r => ((65 <=? code c) && (code c <=? 90))%nat || hasUpper r
  end.

(** Every key under which [namedColors[val]] finds something. *)
Definition allKeys : list string := map fst namedColors ++ ObjectPrototypeKeys.

(** The lower-cased, trimmed input is a key of the named-colour table. *)
Definition isNamed (val : string) : bool := hasKey (map fst namedColors) val.

(** It is a well-formed 6-digit hex code, with or without the leading '#'. *)
Definition isHexCode (val : string) : bool := testHexPattern val || hexDigits 6 val.

(** Only white space. *)
Fixpoint allWhiteSpace (s : string) : bool :=
  match s with
  | EmptyString => true
  | String c r => isWhiteSpace c && allWhiteSpace r
  end.

(** Only hexadecimal digits, in either case. *)
Fixpoint allHexAnyCase (s : string) : bool :=
  match s with
  | EmptyString => true
  | String c r => isHexAnyCase c && allHexAnyCase r
  end.

(** What the trimmed, lower-cased input has to be for a colour: a key of
    the table or a 6-digit hex code. *)
Definition isColorToken (input : string) : bool :=
  let val := toLowerCase (trim input) in
  isNamed val || isHexCode val.

(** The levels in order of strictness: Fail, AA, AAA. *)
Definition levelRank (l : Level) : nat :=
  match l with
  | Fail => 0
  | AA => 1
  | AAA => 2
  end.

(** The number that stands for an integer (exact below 2^53), as
    [parseInt16] produces it. *)
Definition numberOfZ (n : Z) : float := of_uint63 (Uint63.of_Z n).

(** A number that is finite and not zero
    ([Number.isFinite(x) && x !== 0]). *)
Definition finiteNonZero (x : float) : bool :=
  match classify x with
  | PNormal | NNormal | PSubn | NSubn => true
  | _ => false
  end.

(** The check behind [parseInt16_pair], as a computation. *)
Definition pairParsed (c1 c2 : ascii) : bool :=
  match hexDigitValue c1, hexDigitValue c2 with
  | Some d1, Some d2 =>
      ((0 <=? d1) && (d1 <? 16) && (0 <=? d2) && (d2 <? 16))%Z
      && Leibniz.eqb (parseInt16 (String c1 (String c2 EmptyString)))
                     (numberOfZ (16 * d1 + d2))
  | _, _ => false
  end.

(** ** Rounding

    The vocabulary of the range of the contrast ratio: what it means that
    a binary64 number is the rounding of a rational, as the operations of
    [SpecFloat] compute it. *)

Local Open Scope Z_scope.

(** The location of a remainder [a] in a unit [U]. *)
Definition locOf (a U : Z) : location :=
  if a =? 0 then loc_Exact else loc_Inexact (Z.compare (2 * a) U).

(** One more when the remainder is above the half, or is the half and the
    integer is odd. *)
Definition roundUp (M a U : Z) : Z :=
  if (U <? 2 * a) || ((2 * a =? U) && Z.odd M) then 1 else 0.

(** What the shifted-out bits of a [shr_record] stand for: [v] is the
    integer part [shr_m] times [U] plus a remainder [a]; the round bit
    says whether [a] reaches the half of [U], the sticky bit whether [a]
    is neither zero nor the half. *)
Definition shrInv (v U : Z) (rec : shr_record) : Prop :=
  0 < U /\ 0 <= shr_m rec /\
  exists a, v = shr_m rec * U + a /\ 0 <= a < U /\
    (shr_r rec = true <-> U <= 2 * a) /\
    (shr_s rec = true <-> (a <> 0 /\ 2 * a <> U)).

(** The number with integer significand [N] at exponent [t]; a
    significand that rounding has carried to 2^53 moves to the next
    binade. *)
Definition finalize (N t : Z) : spec_float :=
  if N =? 0 then S754_zero false
  else if N =? 2 ^ 53 then S754_finite false (Z.to_pos (2 ^ 52)) (t + 1)
  else S754_finite false (Z.to_pos N) t.

(** [F] is the binary64 number nearest to [v / D / 2^K], ties to even:
    [v / D / 2^K] is [Q + b / (2^(t+K) * D)] units of [2^t], with [t] the
    exponent of its binade. *)
Definition Rounded (K v D : Z) (F : spec_float) : Prop :=
  0 < D /\
  exists t Q b,
    -1074 <= t <= 970 /\ 0 <= t + K /\
    v = Q * (2 ^ (t + K) * D) + b /\ 0 <= b < 2 ^ (t + K) * D /\
    0 <= Q < 2 ^ 53 /\ (-1074 < t -> 2 ^ 52 <= Q) /\
    F = finalize (Q + roundUp Q b (2 ^ (t + K) * D)) t.

(** The value of a non-negative finite number, in units of 2^-1074. *)
Definition valueOf (x : spec_float) : Z :=
  match x with
  | S754_finite false m e => Z.pos m * 2 ^ (e + 1074)
  | _ => 0
  end.

(** A zero of either sign or a positive finite number in canonical form. *)
Definition nonNegative (x : spec_float) : Prop :=
  match x with
  | S754_zero _ => True
  | S754_finite false m e => bounded prec emax m e = true
  | _ => False
  end.

(** Rounding of a value that may be zero. *)
Definition RoundedZ (K v D : Z) (F : spec_float) : Prop :=
  (v = 0 /\ exists s, F = S754_zero s) \/ (0 < v /\ Rounded K v D F).

Local Close Scope Z_scope.

(** The closed unit interval, [0 <= x && x <= 1]. *)
Definition inUnit (x : float) : bool := ((0 <=? x) && (x <=? 1))%float.

(** * Properties *)

(** ** Sanity checks of the embedding on concrete inputs *)

Example trim_sample : trim (String "009" " a b  ") = "a b" /\ trim "   " = "".
Proof. split; reflexivity. Qed.

Example toLowerCase_sample : toLowerCase "#FfAa09 Z" = "#ffaa09 z".
Proof. reflexivity. Qed.

Example normalizeColor_red :
  normalizeColor "  Red " = Normal (JSString "#ff0000").
Proof. reflexivity. Qed.

Example normalizeColor_bare_hex :
  normalizeColor "abc123" = Normal (JSString "#abc123").
Proof. reflexivity. Qed.

Example normalizeColor_empty : normalizeColor "" = Throw InvalidColor.
Proof. reflexivity. Qed.

Example normalizeColor_hash : normalizeColor "#" = Throw InvalidColor.
Proof. reflexivity. Qed.

Example normalizeColor_shorthand : normalizeColor "#fff" = Throw InvalidColor.
Proof. reflexivity. Qed.

Example normalizeColor_red1 : normalizeColor "red1" = Throw InvalidColor.
Proof. reflexivity. Qed.

Example normalizeColor_ggg : normalizeColor "#ggg123" = Throw InvalidColor.
Proof. reflexivity. Qed.

Example normalizeColor_inner_space :
  normalizeColor "fff fff" = Throw InvalidColor.
Proof. reflexivity. Qed.

(** ** Characters *)

(** Case analysis on the eight bits of a character. *)
Ltac by_bits c :=
  destruct c as [[] [] [] [] [] [] [] []]; try discriminate; try reflexivity.

Lemma isHexLower_anyCase c : isHexLower c = true -> isHexAnyCase c = true.
Proof. unfold isHexAnyCase. intros ->. reflexivity. Qed.

Lemma isHexAnyCase_lower c :
  isHexAnyCase c = true -> isHexLower (toLowerCaseChar c) = true.
Proof. by_bits c. Qed.

Lemma isHexLower_fixed c : isHexLower c = true -> toLowerCaseChar c = c.
Proof. by_bits c. Qed.

Lemma isColorChar_not_space c : isColorChar c = true -> isWhiteSpace c = false.
Proof. by_bits c. Qed.

Lemma startsWithHash_spec s :
  startsWithHash s = true <-> exists r, s = String "#" r.
Proof.
  split.
  - destruct s as [|c r]; [discriminate|]. intros H.
    exists r. f_equal. revert H. by_bits c.
  - intros [r ->]. reflexivity.
Qed.

Lemma startsWithHash_false_replace s :
  startsWithHash s = false -> replaceLeadingHash s = s.
Proof. destruct s as [|c r]; [reflexivity|]. by_bits c. Qed.

Lemma startsWithHash_false_test s :
  startsWithHash s = false -> testHexPattern s = false.
Proof. destruct s as [|c r]; [reflexivity|]. by_bits c. Qed.

Lemma testHexPattern_hash s : testHexPattern (String "#" s) = hexDigits 6 s.
Proof. reflexivity. Qed.

Lemma testHexPattern_inv s :
  testHexPattern s = true -> exists d, s = String "#" d /\ hexDigits 6 d = true.
Proof.
  intros H. destruct (startsWithHash s) eqn:E.
  - apply startsWithHash_spec in E as [r ->]. exists r. split; [reflexivity|exact H].
  - rewrite (startsWithHash_false_test _ E) in H. discriminate.
Qed.

(** ** Trimming and lower-casing colour strings *)

Lemma trimStart_colorChars s : allColorChars s = true -> trimStart s = s.
Proof.
  destruct s as [|c r]; [reflexivity|]. simpl.
  intros H. apply andb_prop in H as [Hc _].
  now rewrite (isColorChar_not_space _ Hc).
Qed.

Lemma trimEnd_colorChars s : allColorChars s = true -> trimEnd s = s.
Proof.
  induction s as [|c r IH]; [reflexivity|]. simpl.
  intros H. apply andb_prop in H as [Hc Hr].
  rewrite (IH Hr). destruct r; [|reflexivity].
  now rewrite (isColorChar_not_space _ Hc).
Qed.

Lemma trim_colorChars s : allColorChars s = true -> trim s = s.
Proof.
  intros H. unfold trim. rewrite (trimStart_colorChars _ H).
  now apply trimEnd_colorChars.
Qed.

Lemma hexDigitsAnyCase_colorChars n s :
  hexDigitsAnyCase n s = true -> allColorChars s = true.
Proof.
  revert s. induction n as [|n IH]; intros [|c r]; simpl; try discriminate; auto.
  intros H. apply andb_prop in H as [Hc Hr].
  unfold isColorChar. rewrite Hc, orb_true_r. simpl. eauto.
Qed.

Lemma hexDigits_anyCase n s : hexDigits n s = true -> hexDigitsAnyCase n s = true.
Proof.
  revert s. induction n as [|n IH]; intros [|c r]; simpl; try discriminate; auto.
  intros H. apply andb_prop in H as [Hc Hr].
  now rewrite (isHexLower_anyCase _ Hc), (IH _ Hr).
Qed.

Lemma hexDigitsAnyCase_lower n s :
  hexDigitsAnyCase n s = true -> hexDigits n (toLowerCase s) = true.
Proof.
  revert s. induction n as [|n IH]; intros [|c r]; simpl; try discriminate; auto.
  intros H. apply andb_prop in H as [Hc Hr].
  now rewrite (isHexAnyCase_lower _ Hc), (IH _ Hr).
Qed.

Lemma hexDigits_lower_fixed n s : hexDigits n s = true -> toLowerCase s = s.
Proof.
  revert s. induction n as [|n IH]; intros [|c r]; simpl; try discriminate; auto.
  intros H. apply andb_prop in H as [Hc Hr].
  now rewrite (isHexLower_fixed _ Hc), (IH _ Hr).
Qed.

Lemma hexDigits_not_hash n s : hexDigits n s = true -> startsWithHash s = false.
Proof.
  destruct n, s as [|c r]; simpl; try discriminate; try reflexivity.
  intros H. apply andb_prop in H as [Hc _]. revert Hc. by_bits c.
Qed.

Lemma allColorChars_app s t :
  allColorChars s = true -> allColorChars t = true ->
  allColorChars (s ++ t) = true.
Proof.
  induction s as [|c r IH]; simpl; [auto|].
  intros H Ht. apply andb_prop in H as [Hc Hr].
  now rewrite Hc, (IH Hr Ht).
Qed.

Lemma allColorChars_hashes n : allColorChars (hashes n) = true.
Proof. induction n as [|n IH]; [reflexivity|exact IH]. Qed.

Lemma toLowerCase_app s t :
  toLowerCase (s ++ t) = toLowerCase s ++ toLowerCase t.
Proof. induction s as [|c r IH]; simpl; [reflexivity|now rewrite IH]. Qed.

Lemma toLowerCase_hashes n : toLowerCase (hashes n) = hashes n.
Proof. induction n as [|n IH]; simpl; [reflexivity|]. now rewrite IH. Qed.

(** ** Property lookup *)

Lemma ownProperty_Some tbl k v :
  ownProperty tbl k = Some v -> In (k, v) tbl.
Proof.
  induction tbl as [|[k' v'] rest IH]; simpl; [discriminate|].
  destruct (String.eqb_spec k k') as [->|_].
  - intros [= ->]. now left.
  - intros H. right. auto.
Qed.

Lemma ownProperty_hasKey tbl k :
  hasKey (map fst tbl) k = match ownProperty tbl k with Some _ => true | None => false end.
Proof.
  unfold hasKey. induction tbl as [|[k' v'] rest IH]; simpl; [reflexivity|].
  destruct (k =? k'); [reflexivity|exact IH].
Qed.

Lemma hasKey_In keys k : hasKey keys k = true -> In k keys.
Proof.
  unfold hasKey. intros H. apply existsb_exists in H as [k' [Hin E]].
  apply String.eqb_eq in E. now subst.
Qed.

Lemma getNamedColor_defined val :
  getNamedColor val <> JSUndefined -> In val allKeys.
Proof.
  unfold getNamedColor, allKeys. intros H. apply in_or_app.
  destruct (ownProperty namedColors val) as [hex|] eqn:E.
  - left. apply ownProperty_Some in E.
    change val with (fst (val, hex)). now apply in_map.
  - right. destruct (hasKey ObjectPrototypeKeys val) eqn:K; [|congruence].
    now apply hasKey_In.
Qed.

(** No key starts with '#', and no key is six hexadecimal digits. *)
Lemma allKeys_not_hex :
  forallb (fun k => negb (startsWithHash k) && negb (hexDigits 6 k)) allKeys = true.
Proof. reflexivity. Qed.

Lemma getNamedColor_hash val :
  startsWithHash val = true -> getNamedColor val = JSUndefined.
Proof.
  intros H. destruct (getNamedColor val) eqn:E; [reflexivity| |];
    (assert (Hin : In val allKeys) by (apply getNamedColor_defined; congruence);
     pose proof (proj1 (forallb_forall _ _) allKeys_not_hex _ Hin) as K;
     cbv beta in K; rewrite H in K; discriminate).
Qed.

Lemma getNamedColor_hexDigits val :
  hexDigits 6 val = true -> getNamedColor val = JSUndefined.
Proof.
  intros H. destruct (getNamedColor val) eqn:E; [reflexivity| |];
    (assert (Hin : In val allKeys) by (apply getNamedColor_defined; congruence);
     pose proof (proj1 (forallb_forall _ _) allKeys_not_hex _ Hin) as K;
     cbv beta in K; rewrite H, andb_false_r in K; discriminate).
Qed.

(** The values of the table are non-empty and match the hex pattern. *)
Lemma namedColors_values :
  forallb (fun kv => negb (snd kv =? "") && testHexPattern (snd kv)) namedColors = true.
Proof. reflexivity. Qed.

Lemma ownProperty_value val hex :
  ownProperty namedColors val = Some hex ->
  (hex =? "") = false /\ testHexPattern hex = true.
Proof.
  intros H. apply ownProperty_Some in H.
  pose proof (proj1 (forallb_forall _ _) namedColors_values _ H) as K.
  cbv beta in K. simpl snd in K. apply andb_prop in K as [K1 K2].
  split; [now apply negb_true_iff in K1|exact K2].
Qed.

(** ** The hex pattern and the NormalizedColor invariant *)

Lemma hexDigits_spec n d :
  hexDigits n d = true <->
  String.length d = n /\
  forall i c, String.get i d = Some c -> isHexLower c = true.
Proof.
  revert d. induction n as [|n IH]; intros [|c r]; simpl.
  - split; [intros _; split; [reflexivity|discriminate]|reflexivity].
  - split; [discriminate|intros [[=] _]].
  - split; [discriminate|intros [[=] _]].
  - rewrite andb_true_iff, IH. split.
    + intros [Hc [Hl Hr]]. split; [now rewrite Hl|].
      intros [|i] c'; simpl; [intros [= <-]; exact Hc|apply Hr].
    + intros [[= Hl] Hall]. split; [exact (Hall 0 c eq_refl)|].
      split; [exact Hl|]. intros i c' Hi. exact (Hall (S i) c' Hi).
Qed.

Lemma testHexPattern_spec s : testHexPattern s = true <-> NormalizedColor s.
Proof.
  unfold NormalizedColor. split.
  - intros H. apply testHexPattern_inv in H as [d [-> Hd]].
    apply hexDigits_spec in Hd as [Hl Hall].
    split; [simpl; now rewrite Hl|]. now exists d.
  - intros [Hl [r [-> Hall]]]. rewrite testHexPattern_hash.
    apply hexDigits_spec. split; [now injection Hl|exact Hall].
Qed.

(** ** The three ways out of [normalizeColor] *)

Lemma normalizeColor_named input hex :
  ownProperty namedColors (toLowerCase (trim input)) = Some hex ->
  normalizeColor input = Normal (JSString hex).
Proof.
  intros H. unfold normalizeColor, getNamedColor. rewrite H.
  destruct (ownProperty_value _ _ H) as [Hne _].
  simpl. now rewrite Hne.
Qed.

Lemma normalizeColor_inherited input :
  ownProperty namedColors (toLowerCase (trim input)) = None ->
  hasKey ObjectPrototypeKeys (toLowerCase (trim input)) = true ->
  normalizeColor input = Normal (JSObject (toLowerCase (trim input))).
Proof.
  intros H K. unfold normalizeColor, getNamedColor. now rewrite H, K.
Qed.

(** In the hex branch the value is validated as it stands when it starts
    with '#', and with one '#' put in front otherwise; nothing is removed. *)
Lemma normalizeColor_hex_branch input :
  getNamedColor (toLowerCase (trim input)) = JSUndefined ->
  normalizeColor input =
    let val := toLowerCase (trim input) in
    let candidate := if startsWithHash val then val else "#" ++ val in
    if testHexPattern candidate then Normal (JSString candidate)
    else Throw InvalidColor.
Proof.
  intros H. unfold normalizeColor. rewrite H.
  change (truthy JSUndefined) with false. cbv iota zeta.
  destruct (startsWithHash (toLowerCase (trim input))) eqn:E;
    [change (negb true) with false|change (negb false) with true]; cbv iota.
  - destruct (testHexPattern (toLowerCase (trim input))); reflexivity.
  - rewrite (startsWithHash_false_replace _ E).
    destruct (testHexPattern ("#" ++ toLowerCase (trim input))); reflexivity.
Qed.

(** What [normalizeColor] can return: a string that matches the hex
    pattern, or a member of [Object.prototype]. *)
Lemma normalizeColor_returns input v :
  normalizeColor input = Normal v ->
  (exists r, v = JSString r /\ testHexPattern r = true) \/
  (exists k, v = JSObject k /\ In k ObjectPrototypeKeys).
Proof.
  set (val := toLowerCase (trim input)).
  destruct (ownProperty namedColors val) as [hex|] eqn:E.
  - rewrite (normalizeColor_named _ _ E). intros [= <-].
    left. exists hex. split; [reflexivity|]. now apply ownProperty_value in E.
  - destruct (hasKey ObjectPrototypeKeys val) eqn:K.
    + rewrite (normalizeColor_inherited _ E K). intros [= <-].
      right. exists val. split; [reflexivity|]. now apply hasKey_In.
    + rewrite normalizeColor_hex_branch
        by (unfold getNamedColor; fold val; now rewrite E, K).
      fold val. cbv zeta.
      destruct (testHexPattern (if startsWithHash val then val else "#" ++ val)) eqn:T;
        [|discriminate].
      intros [= <-]. left. eexists. split; [reflexivity|exact T].
Qed.

(** The string results of [normalizeColor] satisfy the invariant. *)
Lemma normalizeColor_string_normalized input r :
  normalizeColor input = Normal (JSString r) -> NormalizedColor r.
Proof.
  intros H. apply normalizeColor_returns in H as [[r' [[= <-] T]]|[k [[=] _]]].
  now apply testHexPattern_spec.
Qed.

(** Six hexadecimal digits in either case, with or without a leading '#',
    normalise to '#' and the lower-cased digits. *)
Lemma normalizeColor_digits h :
  hexDigitsAnyCase 6 h = true ->
  normalizeColor h = Normal (JSString ("#" ++ toLowerCase h)) /\
  normalizeColor ("#" ++ h) = Normal (JSString ("#" ++ toLowerCase h)).
Proof.
  intros H.
  pose proof (hexDigitsAnyCase_colorChars _ _ H) as Hc.
  pose proof (hexDigitsAnyCase_lower _ _ H) as Hl.
  split.
  - rewrite normalizeColor_hex_branch; rewrite (trim_colorChars _ Hc).
    + cbv zeta. rewrite (hexDigits_not_hash _ _ Hl).
      change (testHexPattern ("#" ++ toLowerCase h)) with (hexDigits 6 (toLowerCase h)).
      now rewrite Hl.
    + now apply getNamedColor_hexDigits.
  - assert (Hc' : allColorChars ("#" ++ h) = true) by exact Hc.
    rewrite normalizeColor_hex_branch; rewrite (trim_colorChars _ Hc').
    + cbv zeta. change (toLowerCase ("#" ++ h)) with ("#" ++ toLowerCase h).
      change (startsWithHash ("#" ++ toLowerCase h)) with true. cbv iota.
      change (testHexPattern ("#" ++ toLowerCase h)) with (hexDigits 6 (toLowerCase h)).
      now rewrite Hl.
    + now apply getNamedColor_hash.
Qed.

(** ** Which inputs are accepted *)

Lemma hex_branch_candidate val :
  testHexPattern (if startsWithHash val then val else "#" ++ val) = isHexCode val.
Proof.
  unfold isHexCode. destruct (startsWithHash val) eqn:E.
  - destruct (hexDigits 6 val) eqn:D; [|now rewrite orb_false_r].
    apply hexDigits_not_hash in D. congruence.
  - now rewrite (startsWithHash_false_test _ E).
Qed.

(** Away from the keys of [Object.prototype], [normalizeColor] accepts
    exactly the named colours and the 6-digit hex codes, returns a
    NormalizedColor for them and throws "Invalid color" otherwise. *)
Lemma normalizeColor_outside_prototype input :
  let val := toLowerCase (trim input) in
  hasKey ObjectPrototypeKeys val = false ->
  if isNamed val || isHexCode val
  then exists r, normalizeColor input = Normal (JSString r) /\ NormalizedColor r
  else normalizeColor input = Throw InvalidColor.
Proof.
  intros val K. unfold isNamed. rewrite ownProperty_hasKey.
  destruct (ownProperty namedColors val) as [hex|] eqn:E.
  - simpl. exists hex. split; [now apply normalizeColor_named|].
    apply testHexPattern_spec. now apply ownProperty_value in E.
  - simpl. rewrite normalizeColor_hex_branch
      by (unfold getNamedColor; fold val; now rewrite E, K).
    fold val. cbv zeta. rewrite hex_branch_candidate.
    destruct (isHexCode val) eqn:T; [|reflexivity].
    eexists. split; [reflexivity|].
    apply testHexPattern_spec. now rewrite hex_branch_candidate.
Qed.

(** Lower-casing leaves no capital letter, so of the keys of
    [Object.prototype] only "constructor" and "__proto__" can be looked
    up. *)
Lemma toLowerCaseChar_not_upper c :
  ((65 <=? code (toLowerCaseChar c)) && (code (toLowerCaseChar c) <=? 90))%nat = false.
Proof. by_bits c. Qed.

Lemma toLowerCase_no_upper s : hasUpper (toLowerCase s) = false.
Proof.
  induction s as [|c r IH]; [reflexivity|].
  change (hasUpper (toLowerCase (String c r)))
    with (((65 <=? code (toLowerCaseChar c))
           && (code (toLowerCaseChar c) <=? 90))%nat
          || hasUpper (toLowerCase r)).
  now rewrite toLowerCaseChar_not_upper, IH.
Qed.

Lemma ObjectPrototypeKeys_lower :
  forallb (fun k => hasUpper k || (k =? "constructor") || (k =? "__proto__"))
          ObjectPrototypeKeys = true.
Proof. reflexivity. Qed.

Lemma inherited_reachable input :
  let val := toLowerCase (trim input) in
  hasKey ObjectPrototypeKeys val = true ->
  val = "constructor" \/ val = "__proto__".
Proof.
  intros val K. apply hasKey_In in K.
  pose proof (proj1 (forallb_forall _ _) ObjectPrototypeKeys_lower _ K) as L.
  cbv beta in L. unfold val in L at 1. rewrite toLowerCase_no_upper in L.
  simpl in L. apply orb_prop in L as [L|L]; apply String.eqb_eq in L; auto.
Qed.

(** The two inherited keys are returned as objects, in any case and with
    any white space around them. *)
Lemma normalizeColor_inherited_keys input :
  let val := toLowerCase (trim input) in
  val = "constructor" \/ val = "__proto__" ->
  normalizeColor input = Normal (JSObject val).
Proof.
  intros val H. apply normalizeColor_inherited; fold val;
    destruct H as [-> | ->]; reflexivity.
Qed.

(** A string that matches the hex pattern is returned as it is. *)
Lemma normalizeColor_fixed_point r :
  testHexPattern r = true -> normalizeColor r = Normal (JSString r).
Proof.
  intros T. apply testHexPattern_inv in T as [d [-> Hd]].
  destruct (normalizeColor_digits d (hexDigits_anyCase _ _ Hd)) as [_ H1].
  now rewrite (hexDigits_lower_fixed _ _ Hd) in H1.
Qed.

(** So is every value of the named-colour table. *)
Lemma namedColors_fixed_points k hex :
  In (k, hex) namedColors -> normalizeColor hex = Normal (JSString hex).
Proof.
  intros H. apply normalizeColor_fixed_point.
  pose proof (proj1 (forallb_forall _ _) namedColors_values _ H) as K.
  cbv beta in K. simpl snd in K. now apply andb_prop in K as [_ K].
Qed.

(** C1. The claim: [normalizeColor] succeeds exactly on the named colours
    and the 6-digit hex codes and fails with "Invalid color" on every
    other input. The code at the input "constructor": it is neither a key
    of the table nor a hex code, and [normalizeColor] does not throw; it
    returns the function that the object literal inherits from
    [Object.prototype] under that key. *)
Theorem normalizeColor_constructor_accepted :
  let val := toLowerCase (trim "constructor") in
  isNamed val = false /\ isHexCode val = false /\
  normalizeColor "constructor" = Normal (JSObject "constructor") /\
  normalizeColor "constructor" <> Throw InvalidColor.
Proof. repeat split; discriminate. Qed.

(** C2, as stated, fails: two '#' before six hex digits are rejected. *)
Lemma normalizeColor_double_hash_rejected :
  ~ (forall (n : nat) (d : string),
        1 <= n -> hexDigits 6 d = true ->
        normalizeColor (hashes n ++ d) = Normal (JSString ("#" ++ d))).
Proof.
  intros H. specialize (H 2 "abc123" (le_S _ _ (le_n 1)) eq_refl).
  discriminate H.
Qed.

(** C2, amended. In the hex branch one '#' is put in front of a value
    that does not start with '#', and a value that starts with '#' is
    validated as it stands: nothing is stripped. So zero or one '#'
    followed by six lower-case hex digits normalises to '#' and the
    digits, and two or more '#' are rejected with "Invalid color". *)
Theorem normalizeColor_hash_prefix :
  (forall input,
      getNamedColor (toLowerCase (trim input)) = JSUndefined ->
      normalizeColor input =
        let val := toLowerCase (trim input) in
        let candidate := if startsWithHash val then val else "#" ++ val in
        if testHexPattern candidate then Normal (JSString candidate)
        else Throw InvalidColor) /\
  (forall (n : nat) (d : string),
      hexDigits 6 d = true ->
      normalizeColor (hashes n ++ d) =
        if (n <=? 1)%nat then Normal (JSString ("#" ++ d)) else Throw InvalidColor).
Proof.
  split; [exact normalizeColor_hex_branch|].
  intros n d H.
  pose proof (hexDigits_anyCase _ _ H) as Ha.
  destruct (normalizeColor_digits d Ha) as [H0 H1].
  rewrite (hexDigits_lower_fixed _ _ H) in H0, H1.
  destruct n as [|[|n]]; [exact H0|exact H1|].
  change (S (S n) <=? 1)%nat with false. cbv iota.
  assert (Hc : allColorChars (hashes (S (S n)) ++ d) = true).
  { apply allColorChars_app; [apply allColorChars_hashes|].
    now apply hexDigitsAnyCase_colorChars with 6. }
  rewrite normalizeColor_hex_branch; rewrite (trim_colorChars _ Hc);
    rewrite toLowerCase_app, toLowerCase_hashes, (hexDigits_lower_fixed _ _ H).
  - reflexivity.
  - now apply getNamedColor_hash.
Qed.

Lemma normalizeColor_hash_prefix_witness :
  normalizeColor "abc123" = Normal (JSString "#abc123") /\
  normalizeColor (hashes 1 ++ "abc123") = Normal (JSString "#abc123") /\
  normalizeColor (hashes 3 ++ "abc123") = Throw InvalidColor.
Proof.
  split; [|split].
  - exact (proj1 normalizeColor_hash_prefix "abc123" eq_refl).
  - exact (proj2 normalizeColor_hash_prefix 1 "abc123" eq_refl).
  - exact (proj2 normalizeColor_hash_prefix 3 "abc123" eq_refl).
Defined.

(** C3. The claim: every value [normalizeColor] returns is a
    NormalizedColor. The code at the input "constructor": the value
    returned is not a string at all, so it is no NormalizedColor; the
    strings it returns do satisfy the invariant
    ([normalizeColor_string_normalized]). *)
Theorem normalizeColor_constructor_not_normalized :
  exists v, normalizeColor "constructor" = Normal v /\
            forall r, NormalizedColor r -> v <> JSString r.
Proof.
  exists (JSObject "constructor"). split; [reflexivity|discriminate].
Qed.

(** C7. Six hexadecimal digits in upper or lower case, with or without the
    leading '#', are accepted, and the result is '#' followed by the
    lower-cased digits, a NormalizedColor: the case is folded before the
    pattern is tested. *)
Theorem normalizeColor_hex_any_case (h : string) :
  hexDigitsAnyCase 6 h = true ->
  normalizeColor h = Normal (JSString ("#" ++ toLowerCase h)) /\
  normalizeColor ("#" ++ h) = Normal (JSString ("#" ++ toLowerCase h)) /\
  NormalizedColor ("#" ++ toLowerCase h).
Proof.
  intros H. destruct (normalizeColor_digits h H) as [H0 H1].
  repeat split; try assumption.
  - simpl. f_equal.
    now apply (proj1 (hexDigits_spec 6 _)), hexDigitsAnyCase_lower.
  - exists (toLowerCase h). split; [reflexivity|].
    now apply (proj1 (hexDigits_spec 6 _)), hexDigitsAnyCase_lower.
Qed.

Lemma normalizeColor_hex_any_case_witness :
  normalizeColor "FFAA00" = Normal (JSString "#ffaa00") /\
  normalizeColor "#FFAA00" = Normal (JSString "#ffaa00") /\
  NormalizedColor "#ffaa00".
Proof. exact (normalizeColor_hex_any_case "FFAA00" eq_refl). Defined.

(** C10. [normalizeColor] is idempotent on the strings it returns: such a
    string is accepted again and returned unchanged. *)
Theorem normalizeColor_idempotent (input r : string) :
  normalizeColor input = Normal (JSString r) ->
  normalizeColor r = Normal (JSString r).
Proof.
  intros H.
  apply normalizeColor_returns in H as [[r' [[= <-] T]]|[k [[=] _]]].
  now apply normalizeColor_fixed_point.
Qed.

Lemma normalizeColor_idempotent_witness :
  normalizeColor "#ffa500" = Normal (JSString "#ffa500").
Proof. exact (normalizeColor_idempotent " Orange " "#ffa500" eq_refl). Defined.

(** ** Order and equality of binary64 numbers *)

Local Open Scope float_scope.

Lemma SFcompare_antisym (x y : spec_float) :
  SFcompare y x = option_map CompOpp (SFcompare x y).
Proof.
  destruct x as [sx|sx| |sx mx ex], y as [sy|sy| |sy my ey]; simpl;
    try reflexivity;
    try (destruct sx; reflexivity); try (destruct sy; reflexivity);
    try (destruct sx, sy; reflexivity).
  pose proof (Pos.compare_cont_antisym mx my Eq) as Hm; simpl in Hm.
  destruct sx, sy; simpl; try reflexivity;
    rewrite (Z.compare_antisym ex ey); destruct (ex ?= ey)%Z; simpl;
    try reflexivity; rewrite <- Hm;
    try rewrite CompOpp_involutive; reflexivity.
Qed.

Ltac order_cases :=
  repeat match goal with
  | H : context [Pos.compare_cont Eq ?a ?b] |- _ =>
      change (Pos.compare_cont Eq a b) with (Pos.compare a b) in H
  | |- context [Pos.compare_cont Eq ?a ?b] =>
      change (Pos.compare_cont Eq a b) with (Pos.compare a b)
  end;
  repeat match goal with
  | H : context [(?a ?= ?b)%Z] |- _ => destruct (Z.compare_spec a b)
  | |- context [(?a ?= ?b)%Z] => destruct (Z.compare_spec a b)
  | H : context [(?a ?= ?b)%positive] |- _ => destruct (Pos.compare_spec a b)
  | |- context [(?a ?= ?b)%positive] => destruct (Pos.compare_spec a b)
  end;
  simpl in *; try discriminate; try reflexivity; try lia.

Lemma SFcompare_Lt_trans (x y z : spec_float) :
  SFcompare x y = Some Lt -> SFcompare y z = Some Lt ->
  SFcompare x z = Some Lt.
Proof.
  destruct x as [sx|sx| |sx mx ex], y as [sy|sy| |sy my ey],
           z as [sz|sz| |sz mz ez]; simpl; try discriminate;
    repeat match goal with s : bool |- _ => destruct s end;
    simpl; try discriminate; try reflexivity; intros H1 H2;
    order_cases.
Qed.

Lemma SFcompare_None (x y : spec_float) :
  SFcompare x y = None -> x = S754_nan \/ y = S754_nan.
Proof.
  destruct x as [sx|sx| |sx mx ex], y as [sy|sy| |sy my ey]; simpl;
    intros H; try discriminate; auto.
Qed.

(** Numbers that compare equal are the same value, or the two zeros. *)
Lemma SFcompare_Eq (x y : float) :
  SFcompare (Prim2SF x) (Prim2SF y) = Some Eq ->
  x = y \/ (x = zero /\ y = neg_zero) \/ (x = neg_zero /\ y = zero).
Proof.
  intros H.
  destruct (Prim2SF x) as [sx|sx| |sx mx ex] eqn:Ex,
           (Prim2SF y) as [sy|sy| |sy my ey] eqn:Ey; simpl in H;
    try discriminate;
    try (destruct sx; discriminate); try (destruct sy; discriminate).
  - destruct sx, sy.
    + left. apply Prim2SF_inj. congruence.
    + right; right. split; apply Prim2SF_inj; rewrite ?Ex, ?Ey; reflexivity.
    + right; left. split; apply Prim2SF_inj; rewrite ?Ex, ?Ey; reflexivity.
    + left. apply Prim2SF_inj. congruence.
  - left. apply Prim2SF_inj. destruct sx, sy; try discriminate; congruence.
  - left. apply Prim2SF_inj. rewrite Ex, Ey.
    destruct sx, sy; try discriminate;
      destruct (ex ?= ey)%Z eqn:Ee; try discriminate;
      apply Z.compare_eq in Ee; subst ey;
      destruct (Pos.compare_cont Eq mx my) eqn:Em; try discriminate;
      apply Pos.compare_eq in Em; congruence.
Qed.

Lemma is_nan_false (x : float) : is_nan x = false -> Prim2SF x <> S754_nan.
Proof.
  unfold is_nan. rewrite FloatAxioms.eqb_spec. unfold SFeqb.
  intros H E. rewrite E in H. discriminate.
Qed.

Lemma ltb_not_geb (x y : float) : (x <? y) = true -> (x >=? y) = false.
Proof.
  unfold geb. rewrite FloatAxioms.ltb_spec, FloatAxioms.leb_spec. unfold SFltb, SFleb.
  rewrite (SFcompare_antisym (Prim2SF x) (Prim2SF y)).
  destruct (SFcompare (Prim2SF x) (Prim2SF y)) as [[]|]; simpl; congruence.
Qed.

Lemma ltb_trans (x y z : float) :
  (x <? y) = true -> (y <? z) = true -> (x <? z) = true.
Proof.
  rewrite !FloatAxioms.ltb_spec. unfold SFltb. intros H1 H2.
  destruct (SFcompare (Prim2SF x) (Prim2SF y)) as [[]|] eqn:C1; try discriminate.
  destruct (SFcompare (Prim2SF y) (Prim2SF z)) as [[]|] eqn:C2; try discriminate.
  now rewrite (SFcompare_Lt_trans _ _ _ C1 C2).
Qed.

Lemma Leibniz_eqb_true (x y : float) : Leibniz.eqb x y = true -> x = y.
Proof. apply Leibniz.eqb_spec. Qed.

(** The zero test of [Math.max] and [Math.min] cannot fire on numbers that
    do not compare equal. *)
Ltac zero_pair C :=
  match goal with
  | |- context [Leibniz.eqb ?a ?u && Leibniz.eqb ?b ?v] =>
      let E := fresh "E" in
      let E1 := fresh "E" in
      let E2 := fresh "E" in
      destruct (Leibniz.eqb a u && Leibniz.eqb b v) eqn:E;
      [ apply andb_prop in E as [E1 E2];
        apply Leibniz_eqb_true in E1; apply Leibniz_eqb_true in E2;
        subst; vm_compute in C; discriminate
      | ]
  end.

Lemma Math_max_comm (x y : float) : Math.max x y = Math.max y x.
Proof.
  unfold Math.max. rewrite (orb_comm (is_nan y)).
  destruct (is_nan x || is_nan y) eqn:N; [reflexivity|].
  apply orb_false_elim in N as [Nx Ny].
  rewrite !FloatAxioms.ltb_spec. unfold SFltb.
  rewrite (SFcompare_antisym (Prim2SF x) (Prim2SF y)).
  destruct (SFcompare (Prim2SF x) (Prim2SF y)) as [[]|] eqn:C; simpl.
  - apply SFcompare_Eq in C as [->|[[-> ->]|[-> ->]]]; reflexivity.
  - rewrite orb_true_r, orb_false_r. zero_pair C. reflexivity.
  - rewrite orb_true_r, orb_false_r. zero_pair C. reflexivity.
  - apply SFcompare_None in C as [C|C];
      [apply is_nan_false in Nx | apply is_nan_false in Ny]; contradiction.
Qed.

Lemma Math_min_comm (x y : float) : Math.min x y = Math.min y x.
Proof.
  unfold Math.min. rewrite (orb_comm (is_nan y)).
  destruct (is_nan x || is_nan y) eqn:N; [reflexivity|].
  apply orb_false_elim in N as [Nx Ny].
  rewrite !FloatAxioms.ltb_spec. unfold SFltb.
  rewrite (SFcompare_antisym (Prim2SF x) (Prim2SF y)).
  destruct (SFcompare (Prim2SF x) (Prim2SF y)) as [[]|] eqn:C; simpl.
  - apply SFcompare_Eq in C as [->|[[-> ->]|[-> ->]]]; reflexivity.
  - rewrite orb_true_r, orb_false_r. zero_pair C. reflexivity.
  - rewrite orb_true_r, orb_false_r. zero_pair C. reflexivity.
  - apply SFcompare_None in C as [C|C];
      [apply is_nan_false in Nx | apply is_nan_false in Ny]; contradiction.
Qed.

(** ** Compliance levels *)

(** C4. The tiers are closed below: [complianceLevel] gives AAA from 7
    on, AA from 4.5 up to 7 and Fail below 4.5; [complianceLevelLarge]
    gives AAA from 4.5 on, AA from 3 up to 4.5 and Fail below 3; the
    five boundary values of the claim follow. *)
Theorem compliance_tiers (ratio : float) :
  ((7 <=? ratio) = true -> complianceLevel ratio = AAA) /\
  ((4.5 <=? ratio) = true -> (ratio <? 7) = true ->
   complianceLevel ratio = AA) /\
  ((ratio <? 4.5) = true -> complianceLevel ratio = Fail) /\
  ((4.5 <=? ratio) = true -> complianceLevelLarge ratio = AAA) /\
  ((3 <=? ratio) = true -> (ratio <? 4.5) = true ->
   complianceLevelLarge ratio = AA) /\
  ((ratio <? 3) = true -> complianceLevelLarge ratio = Fail) /\
  complianceLevel 7.0 = AAA /\
  complianceLevel 4.5 = AA /\
  complianceLevel 4.49 = Fail /\
  complianceLevelLarge 3.0 = AA /\
  complianceLevelLarge 2.99 = Fail.
Proof.
  assert (H45_7 : (4.5 <? 7) = true) by reflexivity.
  assert (H3_45 : (3 <? 4.5) = true) by reflexivity.
  unfold complianceLevel, complianceLevelLarge.
  repeat split; try reflexivity.
  - intros H. unfold geb. now rewrite H.
  - intros H L. rewrite (ltb_not_geb _ _ L). unfold geb. now rewrite H.
  - intros L. rewrite (ltb_not_geb ratio 7 (ltb_trans ratio 4.5 7 L H45_7)).
    now rewrite (ltb_not_geb _ _ L).
  - intros H. unfold geb. now rewrite H.
  - intros H L. rewrite (ltb_not_geb _ _ L). unfold geb. now rewrite H.
  - intros L. rewrite (ltb_not_geb ratio 4.5 (ltb_trans ratio 3 4.5 L H3_45)).
    now rewrite (ltb_not_geb _ _ L).
Qed.

Lemma compliance_tiers_witness :
  complianceLevel 21 = AAA /\
  complianceLevel 5.25 = AA /\
  complianceLevel 3.9984767707539985 = Fail /\
  complianceLevelLarge 4.5 = AAA /\
  complianceLevelLarge 3.9984767707539985 = AA /\
  complianceLevelLarge 1 = Fail.
Proof.
  refine (conj _ (conj _ (conj _ (conj _ (conj _ _))))).
  - exact (proj1 (compliance_tiers 21) eq_refl).
  - exact (proj1 (proj2 (compliance_tiers 5.25)) eq_refl eq_refl).
  - exact (proj1 (proj2 (proj2 (compliance_tiers 3.9984767707539985))) eq_refl).
  - exact (proj1 (proj2 (proj2 (proj2 (compliance_tiers 4.5)))) eq_refl).
  - exact (proj1 (proj2 (proj2 (proj2 (proj2
             (compliance_tiers 3.9984767707539985))))) eq_refl eq_refl).
  - exact (proj1 (proj2 (proj2 (proj2 (proj2 (proj2
             (compliance_tiers 1)))))) eq_refl).
Defined.

(** A ratio that is not a number fails both classifications. *)
Example compliance_nan :
  complianceLevel nan = Fail /\ complianceLevelLarge nan = Fail.
Proof. split; reflexivity. Qed.

(** ** Luminance and contrast *)

Example Math_max_zeros : Math.max neg_zero zero = zero /\ Math.max zero neg_zero = zero.
Proof. split; reflexivity. Qed.

Example Math_min_zeros :
  Math.min neg_zero zero = neg_zero /\ Math.min zero neg_zero = neg_zero.
Proof. split; reflexivity. Qed.

Example Math_max_nan : Math.max nan 1 = nan /\ Math.min 1 nan = nan.
Proof. split; reflexivity. Qed.

Example parseInt16_samples :
  parseInt16 "ff" = 255 /\ parseInt16 "0a" = 10 /\ parseInt16 "-0" = neg_zero /\
  parseInt16 " 0x1f" = 31 /\ parseInt16 "1g" = 1 /\ parseInt16 "g1" = nan /\
  parseInt16 "" = nan.
Proof. repeat split; reflexivity. Qed.

Section Contrast.

(** Any [Math.pow]. *)
Variable pow : float -> float -> float.

(** C5. Swapping foreground and background does not change the contrast
    ratio: the two calls return the same number, whatever the strings and
    whatever [Math.pow] computes. *)
Theorem contrastRatio_symmetric (a b : string) :
  contrastRatio pow a b = contrastRatio pow b a.
Proof.
  unfold contrastRatio. cbv zeta.
  now rewrite (Math_max_comm (relativeLuminance pow a)),
              (Math_min_comm (relativeLuminance pow a)).
Qed.

(** The channels of black are on the linear piece of [toLinear]. *)
Lemma relativeLuminance_black : relativeLuminance pow "#000000" = 0.
Proof. reflexivity. Qed.

(** One raised to 2.4 is one: the single fact about [Math.pow] that the
    reference values depend on. The result is representable, and an
    approximation of the power that is exact there returns it. *)
Hypothesis pow_one : pow 1 2.4 = 1.

(** A channel of 255 is linearised to [pow 1 2.4]: 255 / 255 is 1 and
    (1 + 0.055) / 1.055 is again 1 in binary64. *)
Lemma toLinear_255 : toLinear pow 255 = 1.
Proof. unfold toLinear. vm_compute. exact pow_one. Qed.

Lemma toLinear_0 : toLinear pow 0 = 0.
Proof. reflexivity. Qed.

Lemma relativeLuminance_white : relativeLuminance pow "#ffffff" = 1.
Proof.
  unfold relativeLuminance. cbv zeta.
  change (parseInt16 (slice "#ffffff" 1 3)) with 255.
  change (parseInt16 (slice "#ffffff" 3 5)) with 255.
  change (parseInt16 (slice "#ffffff" 5 7)) with 255.
  rewrite toLinear_255. reflexivity.
Qed.

Lemma relativeLuminance_red : relativeLuminance pow "#ff0000" = 0.2126.
Proof.
  unfold relativeLuminance. cbv zeta.
  change (parseInt16 (slice "#ff0000" 1 3)) with 255.
  change (parseInt16 (slice "#ff0000" 3 5)) with 0.
  change (parseInt16 (slice "#ff0000" 5 7)) with 0.
  rewrite toLinear_255, toLinear_0. reflexivity.
Qed.

(** C8. With a [Math.pow] that is exact at [1 ** 2.4], white on black has
    contrast ratio 21, exactly and so within 1e-9, and white on white has
    contrast ratio 1. *)
Theorem contrastRatio_reference :
  contrastRatio pow "#ffffff" "#000000" = 21 /\
  (abs (contrastRatio pow "#ffffff" "#000000" - 21) <=? 1e-9) = true /\
  contrastRatio pow "#ffffff" "#ffffff" = 1.
Proof.
  unfold contrastRatio. cbv zeta.
  rewrite relativeLuminance_white, relativeLuminance_black.
  repeat split; reflexivity.
Qed.

(** ** The action *)

(** C9. Submitting "red" on "white" succeeds: the colours are normalised
    to "#ff0000" and "#ffffff", the ratio is 3.9984767707539985, which is
    3.998 to three decimals, the level for normal text is Fail and the
    level for large text is AA. *)
Theorem action_red_on_white :
  normalizeColor "red" = Normal (JSString "#ff0000") /\
  normalizeColor "white" = Normal (JSString "#ffffff") /\
  exists ratio,
    action pow (mkForm (Some "red"%string) (Some "white"%string)) =
      Json (mkReport ratio Fail AA (JSString "#ff0000") (JSString "#ffffff")) /\
    ratio = 3.9984767707539985 /\
    (abs (ratio - 3.998) <? 0.0005) = true.
Proof.
  split; [reflexivity|]. split; [reflexivity|].
  exists 3.9984767707539985. split; [|split; reflexivity].
  unfold action. simpl orEmpty. cbv zeta.
  change (normalizeColor "red") with (Normal (JSString "#ff0000")).
  change (normalizeColor "white") with (Normal (JSString "#ffffff")).
  unfold bind, contrastRatioDyn, contrastRatio. cbv zeta.
  rewrite relativeLuminance_white, relativeLuminance_red.
  reflexivity.
Qed.

(** An input that is no colour is answered with the error and status 400. *)
Example action_notacolor :
  action pow (mkForm (Some "notacolor"%string) (Some "#000000"%string)) =
    JsonError "Invalid input." 400.
Proof. reflexivity. Qed.

(** The value [normalizeColor] returns for "constructor" has no [slice]
    method: the action ends in the same error. *)
Example action_constructor :
  action pow (mkForm (Some "constructor"%string) (Some "white"%string)) =
    JsonError "Invalid input." 400.
Proof. reflexivity. Qed.

End Contrast.

(** The sample [Math.pow] is exact at [1 ** 2.4]. *)
Example powBySquareRoots_one : powBySquareRoots 1 2.4 = 1.
Proof. reflexivity. Qed.

Lemma contrastRatio_reference_witness :
  contrastRatio powBySquareRoots "#ffffff" "#000000" = 21 /\
  (abs (contrastRatio powBySquareRoots "#ffffff" "#000000" - 21) <=? 1e-9) = true /\
  contrastRatio powBySquareRoots "#ffffff" "#ffffff" = 1.
Proof. exact (contrastRatio_reference powBySquareRoots eq_refl). Defined.

Lemma action_red_on_white_witness :
  exists ratio,
    action powBySquareRoots (mkForm (Some "red"%string) (Some "white"%string)) =
      Json (mkReport ratio Fail AA (JSString "#ff0000") (JSString "#ffffff")) /\
    ratio = 3.9984767707539985 /\
    (abs (ratio - 3.998) <? 0.0005) = true.
Proof.
  exact (proj2 (proj2 (action_red_on_white powBySquareRoots eq_refl))).
Defined.

(** The model run on two more pairs, with the sample [Math.pow]. *)
Example contrastRatio_gray_on_white :
  contrastRatio powBySquareRoots "#808080" "#ffffff" = 3.9494396480491174.
Proof. reflexivity. Qed.

Example contrastRatio_orange_on_navy :
  contrastRatio powBySquareRoots "#ffa500" "#000080" = 8.1070615503825998.
Proof. reflexivity. Qed.

(** * Further properties of the code *)

Local Close Scope float_scope.

(** ** White space and letter case *)

Lemma trimStart_padding w s :
  allWhiteSpace w = true -> trimStart (w ++ s) = trimStart s.
Proof.
  induction w as [|c r IH]; simpl; [reflexivity|].
  intros H. apply andb_prop in H as [Hc Hr]. rewrite Hc. auto.
Qed.

Lemma trimEnd_allWhiteSpace w : allWhiteSpace w = true -> trimEnd w = "".
Proof.
  induction w as [|c r IH]; simpl; [reflexivity|].
  intros H. apply andb_prop in H as [Hc Hr]. now rewrite (IH Hr), Hc.
Qed.

Lemma trimEnd_padding s w :
  allWhiteSpace w = true -> trimEnd (s ++ w) = trimEnd s.
Proof.
  intros H. induction s as [|c r IH]; simpl.
  - now apply trimEnd_allWhiteSpace.
  - now rewrite IH.
Qed.

Lemma trimStart_allWhiteSpace w : allWhiteSpace w = true -> trimStart w = "".
Proof.
  induction w as [|c r IH]; simpl; [reflexivity|].
  intros H. apply andb_prop in H as [Hc Hr]. rewrite Hc. auto.
Qed.

Lemma trim_padding_right s w :
  allWhiteSpace w = true -> trim (s ++ w) = trim s.
Proof.
  intros H. unfold trim. induction s as [|c r IH]; simpl.
  - now rewrite (trimStart_allWhiteSpace _ H).
  - destruct (isWhiteSpace c); [exact IH|].
    change (String c (r ++ w)) with (String c r ++ w).
    now apply trimEnd_padding.
Qed.

Lemma trim_padding w1 s w2 :
  allWhiteSpace w1 = true -> allWhiteSpace w2 = true ->
  trim (w1 ++ s ++ w2) = trim s.
Proof.
  intros H1 H2. rewrite <- (trim_padding_right s w2 H2).
  unfold trim. now rewrite trimStart_padding.
Qed.

Lemma isWhiteSpace_toLowerCaseChar c :
  isWhiteSpace (toLowerCaseChar c) = isWhiteSpace c.
Proof. by_bits c. Qed.

Lemma trimStart_toLowerCase s :
  trimStart (toLowerCase s) = toLowerCase (trimStart s).
Proof.
  induction s as [|c r IH]; [reflexivity|].
  change (toLowerCase (String c r))
    with (String (toLowerCaseChar c) (toLowerCase r)).
  change (trimStart (String (toLowerCaseChar c) (toLowerCase r)))
    with (if isWhiteSpace (toLowerCaseChar c) then trimStart (toLowerCase r)
          else String (toLowerCaseChar c) (toLowerCase r)).
  change (trimStart (String c r))
    with (if isWhiteSpace c then trimStart r else String c r).
  rewrite isWhiteSpace_toLowerCaseChar.
  destruct (isWhiteSpace c); [exact IH|reflexivity].
Qed.

Lemma trimEnd_toLowerCase s :
  trimEnd (toLowerCase s) = toLowerCase (trimEnd s).
Proof.
  induction s as [|c r IH]; [reflexivity|].
  change (toLowerCase (String c r))
    with (String (toLowerCaseChar c) (toLowerCase r)).
  change (trimEnd (String (toLowerCaseChar c) (toLowerCase r)))
    with (match trimEnd (toLowerCase r) with
          | EmptyString =>
              if isWhiteSpace (toLowerCaseChar c) then EmptyString
              else String (toLowerCaseChar c) EmptyString
          | String a b => String (toLowerCaseChar c) (String a b)
          end).
  change (trimEnd (String c r))
    with (match trimEnd r with
          | EmptyString =>
              if isWhiteSpace c then EmptyString else String c EmptyString
          | String a b => String c (String a b)
          end).
  rewrite IH, isWhiteSpace_toLowerCaseChar.
  destruct (trimEnd r); [destruct (isWhiteSpace c)|]; reflexivity.
Qed.

Lemma trim_toLowerCase s : trim (toLowerCase s) = toLowerCase (trim s).
Proof. unfold trim. now rewrite trimStart_toLowerCase, trimEnd_toLowerCase. Qed.

(** X1. White space around the input does not matter: padding an input
    with white space on either side leaves the result of
    [normalizeColor] unchanged. *)
Theorem normalizeColor_padding (w1 s w2 : string) :
  allWhiteSpace w1 = true -> allWhiteSpace w2 = true ->
  normalizeColor (w1 ++ s ++ w2) = normalizeColor s.
Proof.
  intros H1 H2. unfold normalizeColor. now rewrite (trim_padding _ _ _ H1 H2).
Qed.

Lemma normalizeColor_padding_witness :
  normalizeColor (String "009" "  " ++ "#FFaa00" ++ String "010" " ")
  = normalizeColor "#FFaa00".
Proof.
  exact (normalizeColor_padding (String "009" "  ") "#FFaa00"
           (String "010" " ") eq_refl eq_refl).
Defined.

(** X2. Letter case does not matter: two inputs that differ only in the
    case of their letters have the same result. *)
Theorem normalizeColor_case (s t : string) :
  toLowerCase s = toLowerCase t -> normalizeColor s = normalizeColor t.
Proof.
  intros H. unfold normalizeColor.
  now rewrite <- !trim_toLowerCase, H.
Qed.

Lemma normalizeColor_case_witness :
  normalizeColor " FuchSIA" = normalizeColor " fuchsia".
Proof. exact (normalizeColor_case " FuchSIA" " fuchsia" eq_refl). Defined.

(** The keys of the table are pairwise different: the entry found for a
    key is the entry listed. *)
Lemma ownProperty_In k hex :
  In (k, hex) namedColors -> ownProperty namedColors k = Some hex.
Proof.
  simpl. intros H.
  repeat (destruct H as [H|H]; [injection H as <- <-; reflexivity|]).
  contradiction.
Qed.

(** X3. Every entry of the named-colour table is found whatever the case
    of the letters and the white space around the name: the result is the
    hex value listed for the name. *)
Theorem normalizeColor_named_any_case (k hex w1 s w2 : string) :
  In (k, hex) namedColors ->
  allWhiteSpace w1 = true -> allWhiteSpace w2 = true ->
  toLowerCase s = k ->
  normalizeColor (w1 ++ s ++ w2) = Normal (JSString hex).
Proof.
  intros Hin H1 H2 Hk. apply normalizeColor_named.
  rewrite (trim_padding _ _ _ H1 H2), <- trim_toLowerCase, Hk.
  assert (Hc : trim k = k).
  { simpl in Hin.
    repeat (destruct Hin as [Hin|Hin]; [injection Hin as <- _; reflexivity|]).
    contradiction. }
  rewrite Hc. now apply ownProperty_In.
Qed.

Lemma normalizeColor_named_any_case_witness :
  normalizeColor ("  " ++ "OrAnGe" ++ String "010" "") = Normal (JSString "#ffa500").
Proof.
  apply (normalizeColor_named_any_case "orange" "#ffa500" "  " "OrAnGe"
           (String "010" "")); try reflexivity.
  simpl. do 16 right. left. reflexivity.
Defined.

(** ** Accepted and rejected inputs *)

(** [normalizeColor] returns a string exactly for the colour tokens. *)
Lemma normalizeColor_string_iff input :
  (exists r, normalizeColor input = Normal (JSString r)) <->
  isColorToken input = true.
Proof.
  unfold isColorToken. set (val := toLowerCase (trim input)).
  destruct (hasKey ObjectPrototypeKeys val) eqn:K.
  - pose proof (inherited_reachable input K) as R. fold val in R.
    pose proof (normalizeColor_inherited_keys input R) as N. fold val in N.
    rewrite N. split.
    + intros [r [=]].
    + destruct R as [-> | ->]; discriminate.
  - pose proof (normalizeColor_outside_prototype input K) as O. fold val in O.
    destruct (isNamed val || isHexCode val).
    + split; [reflexivity|]. intros _. destruct O as [r [O _]]. now exists r.
    + rewrite O. split; [intros [r [=]]|discriminate].
Qed.

(** X4. Apart from the inputs that read "constructor" or "__proto__" once
    trimmed and lower-cased, [normalizeColor] decides the colour tokens:
    a named colour or a 6-digit hex code gives a NormalizedColor, and
    everything else throws the error "Invalid color". *)
Theorem normalizeColor_decides (input : string) :
  toLowerCase (trim input) <> "constructor" ->
  toLowerCase (trim input) <> "__proto__" ->
  (isColorToken input = true ->
   exists r, normalizeColor input = Normal (JSString r) /\ NormalizedColor r) /\
  (isColorToken input = false -> normalizeColor input = Throw InvalidColor).
Proof.
  intros Hc Hp.
  assert (K : hasKey ObjectPrototypeKeys (toLowerCase (trim input)) = false).
  { destruct (hasKey ObjectPrototypeKeys (toLowerCase (trim input))) eqn:K;
      [|reflexivity].
    destruct (inherited_reachable input K); contradiction. }
  pose proof (normalizeColor_outside_prototype input K) as O.
  unfold isColorToken. cbv zeta in O |- *.
  destruct (isNamed (toLowerCase (trim input))
            || isHexCode (toLowerCase (trim input))).
  - split; [intros _; exact O|discriminate].
  - split; [discriminate|intros _; exact O].
Qed.

Lemma normalizeColor_decides_witness :
  (isColorToken " Teal " = true ->
   exists r, normalizeColor " Teal " = Normal (JSString r) /\ NormalizedColor r) /\
  (isColorToken " Teal " = false -> normalizeColor " Teal " = Throw InvalidColor).
Proof.
  apply (normalizeColor_decides " Teal "); discriminate.
Defined.

Lemma allKeys_not_allHex :
  forallb (fun k => negb (allHexAnyCase k)) allKeys = true.
Proof. reflexivity. Qed.

Lemma getNamedColor_allHex val :
  allHexAnyCase val = true -> getNamedColor val = JSUndefined.
Proof.
  intros H. destruct (getNamedColor val) eqn:E; [reflexivity| |];
    (assert (Hin : In val allKeys) by (apply getNamedColor_defined; congruence);
     pose proof (proj1 (forallb_forall _ _) allKeys_not_allHex _ Hin) as K;
     cbv beta in K; rewrite H in K; discriminate).
Qed.

Lemma allHexAnyCase_colorChars s :
  allHexAnyCase s = true -> allColorChars s = true.
Proof.
  induction s as [|c r IH]; simpl; [reflexivity|].
  intros H. apply andb_prop in H as [Hc Hr].
  unfold isColorChar. now rewrite Hc, orb_true_r, (IH Hr).
Qed.

Lemma allHexAnyCase_lower s :
  allHexAnyCase s = true -> allHexAnyCase (toLowerCase s) = true.
Proof.
  induction s as [|c r IH]; simpl; [reflexivity|].
  intros H. apply andb_prop in H as [Hc Hr].
  now rewrite (isHexLower_anyCase _ (isHexAnyCase_lower _ Hc)), (IH Hr).
Qed.

Lemma toLowerCase_length s : String.length (toLowerCase s) = String.length s.
Proof. induction s as [|c r IH]; simpl; [reflexivity|now rewrite IH]. Qed.

Lemma allHexAnyCase_not_hash s :
  allHexAnyCase s = true -> startsWithHash s = false.
Proof.
  destruct s as [|c r]; simpl; [reflexivity|].
  intros H. apply andb_prop in H as [Hc _]. revert Hc. by_bits c.
Qed.

(** X5. Hex digits in any other number than six are rejected, with or
    without the leading '#': the three-digit shorthand, the empty input
    and a bare '#' among them. *)
Theorem normalizeColor_wrong_length (d : string) :
  allHexAnyCase d = true -> String.length d <> 6 ->
  normalizeColor d = Throw InvalidColor /\
  normalizeColor ("#" ++ d) = Throw InvalidColor.
Proof.
  intros H L.
  pose proof (allHexAnyCase_colorChars _ H) as Hc.
  pose proof (allHexAnyCase_lower _ H) as Hl.
  assert (D : hexDigits 6 (toLowerCase d) = false).
  { destruct (hexDigits 6 (toLowerCase d)) eqn:D; [|reflexivity].
    apply hexDigits_spec in D as [D _].
    rewrite toLowerCase_length in D. contradiction. }
  split.
  - rewrite normalizeColor_hex_branch; rewrite (trim_colorChars _ Hc).
    + cbv zeta. rewrite (allHexAnyCase_not_hash _ Hl).
      change (testHexPattern ("#" ++ toLowerCase d))
        with (hexDigits 6 (toLowerCase d)).
      now rewrite D.
    + now apply getNamedColor_allHex.
  - assert (Hc' : allColorChars ("#" ++ d) = true) by exact Hc.
    rewrite normalizeColor_hex_branch; rewrite (trim_colorChars _ Hc').
    + cbv zeta. change (toLowerCase ("#" ++ d)) with ("#" ++ toLowerCase d).
      change (startsWithHash ("#" ++ toLowerCase d)) with true. cbv iota.
      change (testHexPattern ("#" ++ toLowerCase d))
        with (hexDigits 6 (toLowerCase d)).
      now rewrite D.
    + now apply getNamedColor_hash.
Qed.

Lemma normalizeColor_wrong_length_witness :
  normalizeColor "Fa0" = Throw InvalidColor /\
  normalizeColor "#Fa0" = Throw InvalidColor.
Proof.
  apply (normalizeColor_wrong_length "Fa0"); [reflexivity|discriminate].
Defined.

(** ** The action on arbitrary requests *)


Section Action.

Variable pow : float -> float -> float.

(** The action in one case distinction: a report when both fields
    normalise to strings, the error response otherwise. *)
Lemma action_cases request :
  action pow request =
    match normalizeColor (orEmpty (form_fg request)),
          normalizeColor (orEmpty (form_bg request)) with
    | Normal (JSString f), Normal (JSString b) =>
        let ratio := contrastRatio pow f b in
        Json (mkReport ratio (complianceLevel ratio)
                (complianceLevelLarge ratio) (JSString f) (JSString b))
    | _, _ => JsonError "Invalid input." 400
    end.
Proof.
  unfold action. cbv zeta.
  destruct (normalizeColor (orEmpty (form_fg request))) as [[|f|k]|e];
    destruct (normalizeColor (orEmpty (form_bg request))) as [[|b|k']|e'];
    reflexivity.
Qed.

(** X6. The action answers with a report exactly when both fields are
    colour tokens (a named colour or a 6-digit hex code, in any case and
    with white space around); "constructor" and "__proto__", which
    [normalizeColor] lets through, are answered with the error. *)
Theorem action_accepts (request : FormData) :
  (exists r, action pow request = Json r) <->
  isColorToken (orEmpty (form_fg request)) = true /\
  isColorToken (orEmpty (form_bg request)) = true.
Proof.
  rewrite action_cases, <- !normalizeColor_string_iff.
  destruct (normalizeColor (orEmpty (form_fg request))) as [[|f|k]|e];
    destruct (normalizeColor (orEmpty (form_bg request))) as [[|b|k']|e'];
    split;
    try (intros [r [=]]);
    try (intros [[r1 [=]] [r2 [=]]]).
  - split; eexists; reflexivity.
  - eexists; reflexivity.
Qed.

Lemma action_json_inv (request : FormData) (r : Report) :
  action pow request = Json r ->
  exists f b,
    fg r = JSString f /\ bg r = JSString b /\
    NormalizedColor f /\ NormalizedColor b /\
    normalizeColor (orEmpty (form_fg request)) = Normal (JSString f) /\
    normalizeColor (orEmpty (form_bg request)) = Normal (JSString b) /\
    report_contrastRatio r = contrastRatio pow f b /\
    levelSmall r = complianceLevel (report_contrastRatio r) /\
    levelLarge r = complianceLevelLarge (report_contrastRatio r).
Proof.
  rewrite action_cases.
  destruct (normalizeColor (orEmpty (form_fg request))) as [[|f|k]|e] eqn:F;
    destruct (normalizeColor (orEmpty (form_bg request))) as [[|b|k']|e'] eqn:B;
    try discriminate.
  cbv zeta. intros [= <-]. exists f, b. simpl.
  repeat split;
    solve [reflexivity
          | eapply normalizeColor_string_normalized; eassumption].
Qed.

(** X7. A report carries two NormalizedColors, which are what
    [normalizeColor] made of the two fields, their contrast ratio and the
    two levels of that ratio. *)
Theorem action_report (request : FormData) (r : Report) :
  action pow request = Json r ->
  exists f b,
    fg r = JSString f /\ bg r = JSString b /\
    NormalizedColor f /\ NormalizedColor b /\
    normalizeColor (orEmpty (form_fg request)) = Normal (JSString f) /\
    normalizeColor (orEmpty (form_bg request)) = Normal (JSString b) /\
    report_contrastRatio r = contrastRatio pow f b /\
    levelSmall r = complianceLevel (report_contrastRatio r) /\
    levelLarge r = complianceLevelLarge (report_contrastRatio r).
Proof. exact (action_json_inv request r). Qed.

(** X8. Submitting the two colours of a report again gives the same
    report: the action is idempotent on what it returns. *)
Theorem action_resubmit (request : FormData) (r : Report) (f b : string) :
  action pow request = Json r ->
  fg r = JSString f -> bg r = JSString b ->
  action pow (mkForm (Some f) (Some b)) = Json r.
Proof.
  intros H Hf Hb. rewrite action_cases in H.
  destruct (normalizeColor (orEmpty (form_fg request))) as [[|f'|k]|e] eqn:F;
    destruct (normalizeColor (orEmpty (form_bg request))) as [[|b'|k']|e'] eqn:B;
    try discriminate.
  cbv zeta in H. injection H as <-. simpl in Hf, Hb.
  injection Hf as ->. injection Hb as ->.
  rewrite action_cases. simpl orEmpty.
  apply normalizeColor_string_normalized, testHexPattern_spec in F.
  apply normalizeColor_string_normalized, testHexPattern_spec in B.
  now rewrite (normalizeColor_fixed_point _ F), (normalizeColor_fixed_point _ B).
Qed.


(** X10. Swapping the two fields swaps the two colours of the report and
    leaves the ratio and both levels as they were; a request that is
    rejected is rejected the other way round too. *)
Theorem action_swap (fgInput bgInput : option string) :
  match action pow (mkForm fgInput bgInput) with
  | Json r =>
      action pow (mkForm bgInput fgInput) =
        Json (mkReport (report_contrastRatio r) (levelSmall r) (levelLarge r)
                (bg r) (fg r))
  | JsonError e st => action pow (mkForm bgInput fgInput) = JsonError e st
  end.
Proof.
  rewrite !action_cases. simpl form_fg. simpl form_bg.
  destruct (normalizeColor (orEmpty fgInput)) as [[|f|k]|e];
    destruct (normalizeColor (orEmpty bgInput)) as [[|b|k']|e'];
    try reflexivity.
  cbv zeta. simpl. unfold contrastRatio. cbv zeta.
  now rewrite (Math_max_comm (relativeLuminance pow b)),
              (Math_min_comm (relativeLuminance pow b)).
Qed.

End Action.

Lemma action_report_witness :
  exists f b,
    fg (mkReport 21 AAA AAA (JSString "#ffffff") (JSString "#000000")) = JSString f /\
    bg (mkReport 21 AAA AAA (JSString "#ffffff") (JSString "#000000")) = JSString b /\
    NormalizedColor f /\ NormalizedColor b /\
    normalizeColor (orEmpty (form_fg (mkForm (Some "White") (Some "BLACK")))) =
      Normal (JSString f) /\
    normalizeColor (orEmpty (form_bg (mkForm (Some "White") (Some "BLACK")))) =
      Normal (JSString b) /\
    report_contrastRatio (mkReport 21 AAA AAA (JSString "#ffffff") (JSString "#000000")) =
      contrastRatio powBySquareRoots f b /\
    levelSmall (mkReport 21 AAA AAA (JSString "#ffffff") (JSString "#000000")) =
      complianceLevel
        (report_contrastRatio (mkReport 21 AAA AAA (JSString "#ffffff") (JSString "#000000"))) /\
    levelLarge (mkReport 21 AAA AAA (JSString "#ffffff") (JSString "#000000")) =
      complianceLevelLarge
        (report_contrastRatio (mkReport 21 AAA AAA (JSString "#ffffff") (JSString "#000000"))).
Proof.
  exact (action_report powBySquareRoots (mkForm (Some "White") (Some "BLACK"))
           (mkReport 21%float AAA AAA (JSString "#ffffff") (JSString "#000000"))
           eq_refl).
Defined.

Lemma action_resubmit_witness :
  action powBySquareRoots (mkForm (Some "#ffffff") (Some "#000000")) =
    Json (mkReport 21%float AAA AAA (JSString "#ffffff") (JSString "#000000")).
Proof.
  exact (action_resubmit powBySquareRoots (mkForm (Some "White") (Some "BLACK"))
           (mkReport 21%float AAA AAA (JSString "#ffffff") (JSString "#000000"))
           "#ffffff" "#000000" eq_refl eq_refl eq_refl).
Defined.


(** ** The two classifications compared *)

Local Open Scope float_scope.

Lemma SFleb_trans (x y z : spec_float) :
  SFleb x y = true -> SFleb y z = true -> SFleb x z = true.
Proof.
  unfold SFleb.
  destruct x as [sx|sx| |sx mx ex], y as [sy|sy| |sy my ey],
           z as [sz|sz| |sz mz ez]; simpl; try discriminate;
    repeat match goal with s : bool |- _ => destruct s end;
    simpl; try discriminate; try reflexivity; intros H1 H2;
    order_cases.
Qed.

Lemma leb_trans (x y z : float) :
  (x <=? y) = true -> (y <=? z) = true -> (x <=? z) = true.
Proof. rewrite !FloatAxioms.leb_spec. apply SFleb_trans. Qed.

(** X11. Large text is never judged more strictly than normal text: for
    every ratio the level for large text is at least the level for normal
    text, and a ratio that does not fail for normal text is AAA for large
    text. *)
Theorem large_text_at_least_normal (ratio : float) :
  (levelRank (complianceLevel ratio) <= levelRank (complianceLevelLarge ratio))%nat /\
  (complianceLevelLarge ratio = AAA \/ complianceLevel ratio = Fail).
Proof.
  assert (H45_7 : (4.5 <=? 7) = true) by reflexivity.
  unfold complianceLevel, complianceLevelLarge, geb.
  destruct (7 <=? ratio) eqn:H7.
  - rewrite (leb_trans 4.5 7 ratio H45_7 H7). simpl. auto.
  - destruct (4.5 <=? ratio) eqn:H45; simpl; [auto|].
    destruct (3 <=? ratio); simpl; auto.
Qed.

(** X12. Both classifications are monotone: a larger ratio never gets a
    lower level. *)
Theorem compliance_monotone (r1 r2 : float) :
  (r1 <=? r2) = true ->
  (levelRank (complianceLevel r1) <= levelRank (complianceLevel r2))%nat /\
  (levelRank (complianceLevelLarge r1) <= levelRank (complianceLevelLarge r2))%nat.
Proof.
  intros H.
  assert (H45_7 : (4.5 <=? 7) = true) by reflexivity.
  assert (H3_45 : (3 <=? 4.5) = true) by reflexivity.
  unfold complianceLevel, complianceLevelLarge, geb. split.
  - destruct (7 <=? r1) eqn:A1.
    + now rewrite (leb_trans 7 r1 r2 A1 H).
    + destruct (4.5 <=? r1) eqn:B1.
      * pose proof (leb_trans 4.5 r1 r2 B1 H) as B2. rewrite B2.
        destruct (7 <=? r2); simpl; auto.
      * simpl. apply Nat.le_0_l.
  - destruct (4.5 <=? r1) eqn:A1.
    + now rewrite (leb_trans 4.5 r1 r2 A1 H).
    + destruct (3 <=? r1) eqn:B1.
      * pose proof (leb_trans 3 r1 r2 B1 H) as B2. rewrite B2.
        destruct (4.5 <=? r2); simpl; auto.
      * simpl. apply Nat.le_0_l.
Qed.

Lemma compliance_monotone_witness :
  (levelRank (complianceLevel 3.9984767707539985) <= levelRank (complianceLevel 8.5))%nat /\
  (levelRank (complianceLevelLarge 3.9984767707539985)
   <= levelRank (complianceLevelLarge 8.5))%nat.
Proof. exact (compliance_monotone 3.9984767707539985 8.5 eq_refl). Defined.

(** ** Channels *)

Lemma isHexLower_listed c :
  isHexLower c = true ->
  In c (list_ascii_of_string "0123456789abcdef").
Proof.
  intros H.
  assert (E : existsb (Ascii.eqb c) (list_ascii_of_string "0123456789abcdef") = true)
    by (revert H; by_bits c).
  apply existsb_exists in E as [c' [Hin E]].
  apply Ascii.eqb_eq in E. now subst.
Qed.

Lemma pairParsed_all :
  forallb (fun c1 => forallb (pairParsed c1)
                       (list_ascii_of_string "0123456789abcdef"))
          (list_ascii_of_string "0123456789abcdef") = true.
Proof. vm_compute. reflexivity. Qed.

(** Two lower-case hex digits parse to sixteen times the first plus the
    second. *)
Lemma parseInt16_pair (c1 c2 : ascii) :
  isHexLower c1 = true -> isHexLower c2 = true ->
  exists d1 d2 : Z,
    hexDigitValue c1 = Some d1 /\ hexDigitValue c2 = Some d2 /\
    (0 <= d1 < 16)%Z /\ (0 <= d2 < 16)%Z /\
    parseInt16 (String c1 (String c2 EmptyString)) = numberOfZ (16 * d1 + d2).
Proof.
  intros H1 H2. apply isHexLower_listed in H1, H2.
  pose proof (proj1 (forallb_forall _ _) pairParsed_all _ H1) as P.
  cbv beta in P.
  pose proof (proj1 (forallb_forall _ _) P _ H2) as Q.
  unfold pairParsed in Q.
  destruct (hexDigitValue c1) as [d1|]; [|discriminate].
  destruct (hexDigitValue c2) as [d2|]; [|discriminate].
  apply andb_prop in Q as [R E]. apply Leibniz_eqb_true in E.
  exists d1, d2. repeat split; try assumption; lia.
Qed.

Lemma NormalizedColor_digits s :
  NormalizedColor s ->
  exists c1 c2 c3 c4 c5 c6,
    s = String "#" (String c1 (String c2 (String c3 (String c4
          (String c5 (String c6 EmptyString)))))) /\
    isHexLower c1 = true /\ isHexLower c2 = true /\ isHexLower c3 = true /\
    isHexLower c4 = true /\ isHexLower c5 = true /\ isHexLower c6 = true.
Proof.
  intros H. apply testHexPattern_spec, testHexPattern_inv in H as [d [-> H]].
  destruct d as [|c1 [|c2 [|c3 [|c4 [|c5 [|c6 [|c7 r]]]]]]];
    simpl in H; try discriminate;
    try (repeat (apply andb_prop in H as [_ H]); discriminate).
  exists c1, c2, c3, c4, c5, c6. split; [reflexivity|].
  repeat (apply andb_prop in H as [? H]). repeat split; assumption.
Qed.

Section Channels.

Variable pow : float -> float -> float.

(** X13. The three channels of a NormalizedColor parse to integers
    between 0 and 255, never to NaN, and the luminance is the weighted sum
    of their linearised values. *)
Theorem channels_in_range (s : string) :
  NormalizedColor s ->
  exists r g b : Z,
    (0 <= r <= 255)%Z /\ (0 <= g <= 255)%Z /\ (0 <= b <= 255)%Z /\
    parseInt16 (slice s 1 3) = numberOfZ r /\
    parseInt16 (slice s 3 5) = numberOfZ g /\
    parseInt16 (slice s 5 7) = numberOfZ b /\
    relativeLuminance pow s =
      0.2126 * toLinear pow (numberOfZ r)
      + 0.7152 * toLinear pow (numberOfZ g)
      + 0.0722 * toLinear pow (numberOfZ b).
Proof.
  intros H.
  apply NormalizedColor_digits in H
    as (c1 & c2 & c3 & c4 & c5 & c6 & -> & H1 & H2 & H3 & H4 & H5 & H6).
  destruct (parseInt16_pair c1 c2 H1 H2) as (a1 & a2 & _ & _ & A1 & A2 & A).
  destruct (parseInt16_pair c3 c4 H3 H4) as (b1 & b2 & _ & _ & B1 & B2 & B).
  destruct (parseInt16_pair c5 c6 H5 H6) as (e1 & e2 & _ & _ & E1 & E2 & E).
  exists (16 * a1 + a2)%Z, (16 * b1 + b2)%Z, (16 * e1 + e2)%Z.
  unfold relativeLuminance. cbv zeta.
  change (slice (String "#" (String c1 (String c2 (String c3 (String c4
            (String c5 (String c6 EmptyString))))))) 1 3)
    with (String c1 (String c2 EmptyString)).
  change (slice (String "#" (String c1 (String c2 (String c3 (String c4
            (String c5 (String c6 EmptyString))))))) 3 5)
    with (String c3 (String c4 EmptyString)).
  change (slice (String "#" (String c1 (String c2 (String c3 (String c4
            (String c5 (String c6 EmptyString))))))) 5 7)
    with (String c5 (String c6 EmptyString)).
  rewrite A, B, E.
  repeat split; try reflexivity; lia.
Qed.

Lemma linear_piece_table :
  forallb (fun n => Bool.eqb (numberOfZ (Z.of_nat n) / 255 <=? 0.03928)
                             (n <=? 10)%nat)
          (seq 0 256) = true.
Proof. vm_compute. reflexivity. Qed.

(** X14. On the channel values 0 to 255 the linear piece of [toLinear]
    applies exactly to the values up to 10; from 11 on the value goes
    through [Math.pow]. *)
Theorem toLinear_breakpoint (n : Z) :
  (0 <= n <= 255)%Z ->
  toLinear pow (numberOfZ n) =
    if (n <=? 10)%Z then numberOfZ n / 255 / 12.92
    else pow ((numberOfZ n / 255 + 0.055) / 1.055) 2.4.
Proof.
  intros H.
  assert (Hin : In (Z.to_nat n) (seq 0 256)) by (apply in_seq; lia).
  pose proof (proj1 (forallb_forall _ _) linear_piece_table _ Hin) as T.
  cbv beta in T. rewrite Z2Nat.id in T by lia.
  apply Bool.eqb_prop in T. unfold toLinear. cbv zeta. rewrite T.
  destruct (Z.leb_spec n 10) as [L|L].
  - now rewrite (proj2 (Nat.leb_le _ _)) by lia.
  - now rewrite (proj2 (Nat.leb_gt _ _)) by lia.
Qed.

End Channels.

Lemma channels_in_range_witness :
  exists r g b : Z,
    (0 <= r <= 255)%Z /\ (0 <= g <= 255)%Z /\ (0 <= b <= 255)%Z /\
    parseInt16 (slice "#ffa500" 1 3) = numberOfZ r /\
    parseInt16 (slice "#ffa500" 3 5) = numberOfZ g /\
    parseInt16 (slice "#ffa500" 5 7) = numberOfZ b /\
    relativeLuminance powBySquareRoots "#ffa500" =
      0.2126 * toLinear powBySquareRoots (numberOfZ r)
      + 0.7152 * toLinear powBySquareRoots (numberOfZ g)
      + 0.0722 * toLinear powBySquareRoots (numberOfZ b).
Proof.
  apply (channels_in_range powBySquareRoots "#ffa500").
  split; [reflexivity|]. exists "ffa500"%string. split; [reflexivity|].
  intros i c.
  do 6 (destruct i as [|i]; [intros [= <-]; reflexivity|]).
  discriminate.
Defined.

Lemma toLinear_breakpoint_witness :
  toLinear powBySquareRoots (numberOfZ 10) = numberOfZ 10 / 255 / 12.92 /\
  toLinear powBySquareRoots (numberOfZ 11) =
    powBySquareRoots ((numberOfZ 11 / 255 + 0.055) / 1.055) 2.4.
Proof.
  split.
  - apply (toLinear_breakpoint powBySquareRoots 10). lia.
  - apply (toLinear_breakpoint powBySquareRoots 11). lia.
Defined.

Lemma numberOfZ_table :
  forallb (fun a =>
    forallb (fun b =>
      implb (Leibniz.eqb (numberOfZ (Z.of_nat a)) (numberOfZ (Z.of_nat b)))
            (a =? b)%nat)
      (seq 0 256))
    (seq 0 256) = true.
Proof. vm_compute. reflexivity. Qed.

Lemma numberOfZ_inj (a b : Z) :
  (0 <= a <= 255)%Z -> (0 <= b <= 255)%Z ->
  numberOfZ a = numberOfZ b -> a = b.
Proof.
  intros Ha Hb E.
  assert (Ia : In (Z.to_nat a) (seq 0 256)) by (apply in_seq; lia).
  assert (Ib : In (Z.to_nat b) (seq 0 256)) by (apply in_seq; lia).
  pose proof (proj1 (forallb_forall _ _) numberOfZ_table _ Ia) as T.
  cbv beta in T.
  pose proof (proj1 (forallb_forall _ _) T _ Ib) as U. cbv beta in U.
  rewrite !Z2Nat.id in U by lia. rewrite E in U.
  rewrite (proj2 (Leibniz.eqb_spec _ _) eq_refl) in U. simpl in U.
  apply Nat.eqb_eq in U. lia.
Qed.

Lemma hexDigitValue_table :
  forallb (fun c =>
    forallb (fun c' =>
      match hexDigitValue c, hexDigitValue c' with
      | Some d, Some d' => implb (d =? d')%Z (Ascii.eqb c c')
      | _, _ => false
      end)
      (list_ascii_of_string "0123456789abcdef"))
    (list_ascii_of_string "0123456789abcdef") = true.
Proof. vm_compute. reflexivity. Qed.

Lemma hexDigitValue_inj (c c' : ascii) (d : Z) :
  isHexLower c = true -> isHexLower c' = true ->
  hexDigitValue c = Some d -> hexDigitValue c' = Some d -> c = c'.
Proof.
  intros H H' E E'. apply isHexLower_listed in H, H'.
  pose proof (proj1 (forallb_forall _ _) hexDigitValue_table _ H) as T.
  cbv beta in T.
  pose proof (proj1 (forallb_forall _ _) T _ H') as U. cbv beta in U.
  rewrite E, E', Z.eqb_refl in U. simpl in U. now apply Ascii.eqb_eq.
Qed.

Lemma parseInt16_pair_inj (c1 c2 c1' c2' : ascii) :
  isHexLower c1 = true -> isHexLower c2 = true ->
  isHexLower c1' = true -> isHexLower c2' = true ->
  parseInt16 (String c1 (String c2 EmptyString)) =
  parseInt16 (String c1' (String c2' EmptyString)) ->
  c1 = c1' /\ c2 = c2'.
Proof.
  intros H1 H2 H1' H2' E.
  destruct (parseInt16_pair c1 c2 H1 H2) as (d1 & d2 & V1 & V2 & R1 & R2 & P).
  destruct (parseInt16_pair c1' c2' H1' H2')
    as (d1' & d2' & V1' & V2' & R1' & R2' & P').
  rewrite P, P' in E. apply numberOfZ_inj in E; [|lia|lia].
  assert (d1 = d1') by lia. assert (d2 = d2') by lia. subst d1' d2'.
  split; eapply hexDigitValue_inj; eassumption.
Qed.

(** X15. Parsing loses nothing: two NormalizedColors whose three channels
    parse to the same numbers are the same string. *)
Theorem channels_determine_color (s t : string) :
  NormalizedColor s -> NormalizedColor t ->
  parseInt16 (slice s 1 3) = parseInt16 (slice t 1 3) ->
  parseInt16 (slice s 3 5) = parseInt16 (slice t 3 5) ->
  parseInt16 (slice s 5 7) = parseInt16 (slice t 5 7) ->
  s = t.
Proof.
  intros Hs Ht.
  apply NormalizedColor_digits in Hs
    as (c1 & c2 & c3 & c4 & c5 & c6 & -> & H1 & H2 & H3 & H4 & H5 & H6).
  apply NormalizedColor_digits in Ht
    as (e1 & e2 & e3 & e4 & e5 & e6 & -> & K1 & K2 & K3 & K4 & K5 & K6).
  unfold slice. simpl substring. intros R G B.
  apply parseInt16_pair_inj in R as [-> ->]; try assumption.
  apply parseInt16_pair_inj in G as [-> ->]; try assumption.
  apply parseInt16_pair_inj in B as [-> ->]; try assumption.
  reflexivity.
Qed.

Lemma channels_determine_color_witness : "#ffa500"%string = "#ffa500"%string.
Proof.
  exact (channels_determine_color "#ffa500" "#ffa500"
           (proj1 (testHexPattern_spec "#ffa500") eq_refl)
           (proj1 (testHexPattern_spec "#ffa500") eq_refl)
           eq_refl eq_refl eq_refl).
Defined.

(** ** Which colour is on top of the ratio *)

Lemma SFcompare_refl (x : spec_float) :
  x <> S754_nan -> SFcompare x x = Some Eq.
Proof.
  destruct x as [s|s| |s m e]; simpl; intros H;
    try reflexivity; try contradiction; try (destruct s; reflexivity).
  destruct s; rewrite Z.compare_refl, Pos.compare_cont_refl; reflexivity.
Qed.

Lemma not_nan_of_compare (x y : float) (c : comparison) :
  SFcompare (Prim2SF x) (Prim2SF y) = Some c ->
  is_nan x = false /\ is_nan y = false.
Proof.
  intros C. unfold is_nan. rewrite !FloatAxioms.eqb_spec. unfold SFeqb.
  split; rewrite SFcompare_refl; try reflexivity; intros E; rewrite E in C;
    [discriminate|].
  destruct (Prim2SF x); discriminate.
Qed.

(** Below or equal: [Math.max] picks the second and [Math.min] the first,
    unless the two are +0 and -0 in this order. *)
Lemma max_min_of_leb (x y : float) :
  (x <=? y) = true ->
  (Math.max x y = y /\ Math.min x y = x) \/ (x = zero /\ y = neg_zero).
Proof.
  rewrite FloatAxioms.leb_spec. unfold SFleb. intros H.
  destruct (SFcompare (Prim2SF x) (Prim2SF y)) as [c|] eqn:C; [|discriminate].
  destruct (not_nan_of_compare _ _ _ C) as [Nx Ny].
  unfold Math.max, Math.min. rewrite Nx, Ny. simpl orb.
  rewrite !FloatAxioms.ltb_spec. unfold SFltb.
  rewrite (SFcompare_antisym (Prim2SF x) (Prim2SF y)), C.
  destruct c; try discriminate; simpl.
  - apply SFcompare_Eq in C as [->|[[-> ->]|[-> ->]]].
    + left. rewrite !orb_false_r.
      split; [destruct (Leibniz.eqb y zero && Leibniz.eqb y neg_zero)
             |destruct (Leibniz.eqb y neg_zero && Leibniz.eqb y zero)];
        reflexivity.
    + right. split; reflexivity.
    + left. split; reflexivity.
  - left. rewrite orb_true_r, orb_false_r. split; [reflexivity|].
    zero_pair C. reflexivity.
Qed.

Section Orientation.

Variable pow : float -> float -> float.

(** X16. The lighter colour is in the numerator, whichever argument it
    is: when the luminance of [a] is at most that of [b], the ratio of
    [a] and [b] is (lum b + 0.05) / (lum a + 0.05). *)
Theorem contrastRatio_lighter_on_top (a b : string) :
  (relativeLuminance pow a <=? relativeLuminance pow b) = true ->
  contrastRatio pow a b =
    (relativeLuminance pow b + 0.05) / (relativeLuminance pow a + 0.05).
Proof.
  intros H. unfold contrastRatio. cbv zeta.
  destruct (max_min_of_leb _ _ H) as [[-> ->]|[-> ->]]; reflexivity.
Qed.

End Orientation.

Lemma contrastRatio_lighter_on_top_witness :
  contrastRatio powBySquareRoots "#000080" "#ffa500" =
    (relativeLuminance powBySquareRoots "#ffa500" + 0.05)
    / (relativeLuminance powBySquareRoots "#000080" + 0.05).
Proof.
  exact (contrastRatio_lighter_on_top powBySquareRoots "#000080" "#ffa500" eq_refl).
Defined.

(** ** A colour against itself *)

(** A finite number that is not zero, divided by itself, is one: the
    quotient of the mantissas is a power of two and nothing is rounded. *)
Lemma SFdiv_self (s : bool) (m : positive) (e : Z) :
  SF64div (S754_finite s m e) (S754_finite s m e) = Prim2SF 1.
Proof.
  unfold SF64div, SFdiv, SFdiv_core_binary. cbv zeta.
  replace (Zdigits2 (Z.pos m) + e - (Zdigits2 (Z.pos m) + e))%Z with 0%Z by lia.
  rewrite Z.sub_diag.
  change (Z.min (fexp prec emax 0) 0) with (-53)%Z.
  change (0 - -53)%Z with 53%Z. cbv iota.
  assert (D : Z.div_eucl (Z.shiftl (Z.pos m) 53) (Z.pos m) = (2 ^ 53, 0)%Z).
  { rewrite Z.shiftl_mul_pow2 by lia.
    pose proof (Z.div_mul (2 ^ 53) (Z.pos m) ltac:(lia)) as Q.
    pose proof (Z.mod_mul (2 ^ 53) (Z.pos m) ltac:(lia)) as R.
    rewrite (Z.mul_comm (Z.pos m)).
    unfold Z.div, Z.modulo in Q, R.
    destruct (Z.div_eucl (2 ^ 53 * Z.pos m) (Z.pos m)) as [q r].
    simpl in Q, R. now subst. }
  rewrite D.
  assert (L : new_location (Z.pos m) 0 = loc_Exact).
  { unfold new_location. now destruct (Z.even (Z.pos m)). }
  rewrite L. destruct s; vm_compute; reflexivity.
Qed.

Lemma div_self (x : float) : finiteNonZero x = true -> x / x = 1.
Proof.
  unfold finiteNonZero. rewrite FloatAxioms.classify_spec. intros H.
  apply Prim2SF_inj. rewrite FloatAxioms.div_spec.
  destruct (Prim2SF x) as [s|s| |s m e]; try (destruct s; discriminate);
    try discriminate.
  apply SFdiv_self.
Qed.

Lemma finiteNonZero_add_not_nan (x y : float) :
  finiteNonZero (x + y) = true -> is_nan x = false.
Proof.
  unfold finiteNonZero, is_nan. rewrite FloatAxioms.classify_spec, FloatAxioms.add_spec, FloatAxioms.eqb_spec.
  unfold SFeqb. intros H.
  destruct (Prim2SF x) as [s|s| |s m e] eqn:E.
  - reflexivity.
  - destruct s; reflexivity.
  - discriminate.
  - now rewrite SFcompare_refl.
Qed.

Lemma Math_max_self (x : float) : is_nan x = false -> Math.max x x = x.
Proof.
  intros N. unfold Math.max. rewrite N. simpl orb.
  now destruct ((Leibniz.eqb x zero && Leibniz.eqb x neg_zero) || (x <? x)).
Qed.

Lemma Math_min_self (x : float) : is_nan x = false -> Math.min x x = x.
Proof.
  intros N. unfold Math.min. rewrite N. simpl orb.
  now destruct ((Leibniz.eqb x neg_zero && Leibniz.eqb x zero) || (x <? x)).
Qed.

Section SameColor.

Variable pow : float -> float -> float.

(** X17. A colour against itself has contrast ratio exactly 1, for every
    string whose luminance plus 0.05 is a finite number other than zero. *)
Theorem contrastRatio_same_color (a : string) :
  finiteNonZero (relativeLuminance pow a + 0.05) = true ->
  contrastRatio pow a a = 1.
Proof.
  intros H. pose proof (finiteNonZero_add_not_nan _ _ H) as N.
  unfold contrastRatio. cbv zeta.
  rewrite (Math_max_self _ N), (Math_min_self _ N).
  now apply div_self.
Qed.

End SameColor.

Lemma contrastRatio_same_color_witness :
  contrastRatio powBySquareRoots "#808080" "#808080" = 1.
Proof.
  exact (contrastRatio_same_color powBySquareRoots "#808080" eq_refl).
Defined.

(** ** The live preview of the page *)

Local Close Scope float_scope.

(** The three ways out of [normalizeColor], by the kind of input. *)
Lemma normalizeColor_trichotomy input :
  (isColorToken input = true /\
   exists r, normalizeColor input = Normal (JSString r) /\ NormalizedColor r) \/
  (isColorToken input = false /\ isInheritedKey input = true /\
   normalizeColor input = Normal (JSObject (toLowerCase (trim input)))) \/
  (isColorToken input = false /\ isInheritedKey input = false /\
   normalizeColor input = Throw InvalidColor).
Proof.
  unfold isColorToken, isInheritedKey. cbv zeta.
  destruct (hasKey ObjectPrototypeKeys (toLowerCase (trim input))) eqn:K.
  - right. left. pose proof (inherited_reachable input K) as R.
    pose proof (normalizeColor_inherited_keys input R) as N.
    cbv zeta in R, N. rewrite N.
    destruct R as [-> | ->]; repeat split; reflexivity.
  - pose proof (normalizeColor_outside_prototype input K) as O. cbv zeta in O.
    assert (I : ((toLowerCase (trim input) =? "constructor")
                 || (toLowerCase (trim input) =? "__proto__")) = false).
    { apply orb_false_intro; apply String.eqb_neq; intros E;
        rewrite E in K; discriminate. }
    destruct (isNamed (toLowerCase (trim input))
              || isHexCode (toLowerCase (trim input))).
    + left. split; [reflexivity|exact O].
    + right. right. repeat split; assumption.
Qed.

(** Unfolding of the page model down to the calls of [normalizeColor]. *)
Ltac unfold_page :=
  cbv [Index.panelShown Index.submitDisabled Index.render Index.returns
       Index.effect Index.setBgInput Index.setFgInput Index.resetColors
       Index.initialState Index.fgInput Index.bgInput Index.fgIsValid
       Index.bgIsValid Index.lang Index.normalizeColorDyn Index.defaults
       Index.ratio Index.levelSmall Index.levelLarge Index.fgNormalized
       Index.bgNormalized orEmpty form_fg form_bg].

Section Preview.

Variable pow : float -> float -> float.



(** X20. The validity marks, and with them the submit button, follow
    whether [normalizeColor] returns: the button is enabled exactly when
    each input is a colour token or reads "constructor" or "__proto__". *)
Theorem submit_enabled_iff (f b : string) (s : Index.State) :
  let s' := Index.effect (Index.setBgInput b (Index.setFgInput f s)) in
  Index.submitDisabled s' = false <->
  (isColorToken f || isInheritedKey f) && (isColorToken b || isInheritedKey b) = true.
Proof.
  unfold_page.
  destruct (normalizeColor_trichotomy f) as [[-> [f' [-> _]]]|[[-> [-> ->]]|[-> [-> ->]]]];
    destruct (normalizeColor_trichotomy b) as [[-> [b' [-> _]]]|[[-> [-> ->]]|[-> [-> ->]]]];
    simpl; split; intros H; try reflexivity; try discriminate.
Qed.


(** Exactness of [Math.pow] at 1 raised to 2.4, as for the reference
    values. *)
Hypothesis pow_one : pow 1%float 2.4%float = 1%float.

(** X22. The initial values of the preview are the values of the initial
    colours: before any submit, and after the reset button, both inputs
    are marked valid and the computed preview is white on black with
    ratio 21 and AAA for both sizes. *)
Theorem reset_shows_defaults (s : Index.State) :
  let s0 := Index.effect (Index.initialState None) in
  let s1 := Index.effect (Index.resetColors s) in
  Index.panelShown s0 = true /\ Index.render pow s0 = Index.defaults /\
  Index.panelShown s1 = true /\ Index.render pow s1 = Index.defaults.
Proof.
  assert (R : contrastRatio pow "#ffffff" "#000000" = 21%float).
  { unfold contrastRatio. cbv zeta.
    rewrite (relativeLuminance_white pow pow_one), relativeLuminance_black.
    reflexivity. }
  unfold_page.
  change (normalizeColor "#ffffff") with (Normal (JSString "#ffffff")).
  change (normalizeColor "#000000") with (Normal (JSString "#000000")).
  cbv [contrastRatioDyn]. rewrite R. repeat split; reflexivity.
Qed.

End Preview.




Lemma reset_shows_defaults_witness :
  Index.render powBySquareRoots
    (Index.effect (Index.resetColors
       (Index.setFgInput "nonsense" (Index.initialState None)))) =
  Index.defaults.
Proof.
  exact (proj2 (proj2 (proj2
    (reset_shows_defaults powBySquareRoots eq_refl
       (Index.setFgInput "nonsense" (Index.initialState None)))))).
Defined.

Lemma action_accepts_witness :
  exists r, action powBySquareRoots (mkForm (Some " Navy ") (Some "#FFA500")) = Json r.
Proof.
  apply (proj2 (action_accepts powBySquareRoots
                  (mkForm (Some " Navy ") (Some "#FFA500")))).
  split; reflexivity.
Defined.

Lemma submit_enabled_iff_witness :
  Index.submitDisabled
    (Index.effect (Index.setBgInput "__PROTO__"
       (Index.setFgInput "teal" (Index.initialState None)))) = false.
Proof.
  apply (proj2 (submit_enabled_iff "teal" "__PROTO__" (Index.initialState None))).
  reflexivity.
Defined.

(** * The range of the contrast ratio *)

(** The products, sums and quotients of [relativeLuminance] and
    [contrastRatio] are rounded to binary64 one by one. That the results
    stay within their intervals follows from one fact: rounding to nearest
    keeps the order. It is proved here from the definitions of
    [SpecFloat]. *)

Local Open Scope Z_scope.

(** ** The shifted-out bits *)


(** One shift to the right doubles the unit and keeps the invariant. *)
Lemma shr_1_inv v U rec : shrInv v U rec -> shrInv v (2 * U) (shr_1 rec).
Proof.
  intros (HU & Hm & a & Hv & Ha & Hr & Hs).
  destruct rec as [m r s]. cbn [shr_m shr_r shr_s] in *.
  assert (Hrs : orb r s = true <-> a <> 0).
  { rewrite orb_true_iff, Hr, Hs. lia. }
  split; [lia|].
  destruct m as [|[p|p|]|]; cbn [shr_1 shr_m shr_r shr_s]; try lia.
  - (* 0 *) split; [lia|]. exists a. rewrite Hrs. repeat split; try lia; try discriminate.
  - (* xI p *) split; [lia|]. exists (a + U). rewrite Hrs.
    repeat split; try lia.
  - (* xO p *) split; [lia|]. exists a. rewrite Hrs.
    repeat split; try lia; try discriminate.
  - (* 1 *) split; [lia|]. exists (a + U). rewrite Hrs. repeat split; try lia.
Qed.

Lemma pow2_xO p : 2 ^ Z.pos p~0 = 2 ^ Z.pos p * 2 ^ Z.pos p.
Proof.
  replace (Z.pos p~0) with (Z.pos p + Z.pos p) by lia.
  now rewrite Z.pow_add_r by lia.
Qed.

Lemma pow2_xI p : 2 ^ Z.pos p~1 = 2 * (2 ^ Z.pos p * 2 ^ Z.pos p).
Proof.
  replace (Z.pos p~1) with (1 + (Z.pos p + Z.pos p)) by lia.
  now rewrite !Z.pow_add_r, Z.pow_1_r by lia.
Qed.

(** [p] shifts multiply the unit by 2^p. *)
Lemma iter_pos_shr_inv v p : forall U rec,
  shrInv v U rec -> shrInv v (U * 2 ^ Z.pos p) (iter_pos shr_1 p rec).
Proof.
  induction p as [p IH|p IH|]; intros U rec H; simpl iter_pos.
  - apply shr_1_inv in H. apply IH in H. apply IH in H.
    replace (U * 2 ^ Z.pos p~1) with (2 * U * 2 ^ Z.pos p * 2 ^ Z.pos p); [exact H|].
    rewrite pow2_xI. ring.
  - apply IH in H. apply IH in H.
    replace (U * 2 ^ Z.pos p~0) with (U * 2 ^ Z.pos p * 2 ^ Z.pos p); [exact H|].
    rewrite pow2_xO. ring.
  - apply shr_1_inv in H. now rewrite Z.pow_1_r, Z.mul_comm.
Qed.

Lemma shr_record_of_loc_inv q a U :
  0 <= q -> 0 <= a < U ->
  shrInv (q * U + a) U (shr_record_of_loc q (locOf a U)).
Proof.
  intros Hq Ha. unfold locOf.
  destruct (Z.eqb_spec a 0) as [->|Hn].
  - cbn [shr_record_of_loc]. repeat split; try (cbn [shr_m]; lia). exists 0.
    cbn [shr_m shr_r shr_s]. repeat split; try lia; try discriminate.
  - destruct (Z.compare_spec (2 * a) U); cbn [shr_record_of_loc];
      (split; [lia|]); (split; [cbn [shr_m]; lia|]);
      exists a; cbn [shr_m shr_r shr_s]; repeat split; try lia; try discriminate.
Qed.

Lemma loc_of_shr_record_inv v U rec :
  shrInv v U rec ->
  exists a, v = shr_m rec * U + a /\ 0 <= a < U /\
            loc_of_shr_record rec = locOf a U.
Proof.
  intros (HU & Hm & a & Hv & Ha & Hr & Hs). exists a. split; [exact Hv|]. split; [exact Ha|].
  destruct rec as [m r s]. cbn [shr_m shr_r shr_s] in *. unfold locOf.
  destruct r, s; cbn [loc_of_shr_record].
  - assert (U <= 2 * a) by now apply Hr. assert (a <> 0 /\ 2 * a <> U) by now apply Hs.
    destruct (Z.eqb_spec a 0); [lia|]. destruct (Z.compare_spec (2 * a) U); try lia; reflexivity.
  - assert (U <= 2 * a) by now apply Hr.
    assert (~ (a <> 0 /\ 2 * a <> U)) by (intros K; apply Hs in K; discriminate).
    destruct (Z.eqb_spec a 0); [lia|]. destruct (Z.compare_spec (2 * a) U); try lia; reflexivity.
  - assert (~ U <= 2 * a) by (intros K; apply Hr in K; discriminate).
    assert (a <> 0 /\ 2 * a <> U) by now apply Hs.
    destruct (Z.eqb_spec a 0); [lia|]. destruct (Z.compare_spec (2 * a) U); try lia; reflexivity.
  - assert (~ U <= 2 * a) by (intros K; apply Hr in K; discriminate).
    assert (~ (a <> 0 /\ 2 * a <> U)) by (intros K; apply Hs in K; discriminate).
    destruct (Z.eqb_spec a 0); [reflexivity|lia].
Qed.

(** Rounding to nearest even adds [roundUp] to the integer part. *)
Lemma round_nearest_even_locOf M a U :
  0 <= a < U ->
  round_nearest_even M (locOf a U) = M + roundUp M a U.
Proof.
  intros Ha. unfold locOf, roundUp, round_nearest_even.
  destruct (Z.eqb_spec a 0) as [->|Hn].
  - destruct (Z.ltb_spec U (2 * 0)); [lia|]. destruct (Z.eqb_spec (2 * 0) U); [lia|]. simpl. lia.
  - destruct (Z.compare_spec (2 * a) U);
      destruct (Z.ltb_spec U (2 * a)); try lia;
      destruct (Z.eqb_spec (2 * a) U); try lia; simpl; try lia.
    rewrite <- Z.negb_odd. destruct (Z.odd M); simpl; lia.
Qed.

(** ** One rounding *)

Lemma fexp64 e : fexp prec emax e = Z.max (e - 53) (-1074).
Proof. reflexivity. Qed.

Lemma digits2_size m : digits2_pos m = Pos.size m.
Proof. induction m as [m IH|m IH|]; simpl; now rewrite ?IH. Qed.

Lemma digits_bounds m :
  2 ^ (Z.pos (digits2_pos m) - 1) <= Z.pos m < 2 ^ Z.pos (digits2_pos m).
Proof.
  rewrite digits2_size.
  pose proof (Pos.size_gt m) as G. pose proof (Pos.size_le m) as L.
  apply Pos2Z.pos_lt_pos in G. apply Pos2Z.pos_le_pos in L.
  rewrite Pos2Z.inj_pow in G, L. rewrite (Pos2Z.inj_xO m) in L.
  change (Z.pos 2) with 2 in G, L. split; [|exact G].
  replace (Z.pos (Pos.size m)) with (1 + (Z.pos (Pos.size m) - 1)) in L by lia.
  rewrite Z.pow_add_r, Z.pow_1_r in L by lia. lia.
Qed.

Lemma pow2_pos e : 0 <= e -> 0 < 2 ^ e.
Proof. intros. apply Z.pow_pos_nonneg; lia. Qed.

Lemma pow2_le a b : 0 <= a <= b -> 2 ^ a <= 2 ^ b.
Proof. intros. apply Z.pow_le_mono_r; lia. Qed.

Lemma pow2_lt_inv a b : 0 <= b -> 2 ^ a < 2 ^ b -> a < b.
Proof. intros Hb H. apply (Z.pow_lt_mono_r_iff 2); lia. Qed.

Lemma digits_small N : 0 <= N < 2 ^ 53 -> Zdigits2 N <= 53.
Proof.
  intros H. destruct N as [|m|m]; simpl; try lia.
  pose proof (digits_bounds m) as B.
  assert (2 ^ (Z.pos (digits2_pos m) - 1) < 2 ^ 53) by lia.
  apply pow2_lt_inv in H0; lia.
Qed.


Lemma roundUp_range M a U : 0 <= roundUp M a U <= 1.
Proof. unfold roundUp. destruct (_ || _); lia. Qed.

(** The second normalisation and the final case distinction. *)
Lemma finish_spec N t :
  0 <= N <= 2 ^ 53 -> -1074 <= t <= 970 ->
  (let '(mrs, e) := shr_fexp prec emax N t loc_Exact in
   match shr_m mrs with
   | Z0 => S754_zero false
   | Zpos m => if e <=? emax - prec then S754_finite false m e else S754_infinity false
   | _ => S754_nan
   end) = finalize N t.
Proof.
  intros HN Ht. unfold finalize. change (emax - prec) with 971.
  destruct (Z.eqb_spec N (2 ^ 53)) as [->|Hne].
  - unfold shr_fexp. change (Zdigits2 (2 ^ 53)) with 54. rewrite fexp64.
    replace (Z.max (54 + t - 53) (-1074) - t) with 1 by lia.
    cbn. destruct (Z.leb_spec (t + 1) 971) as [_|L]; [reflexivity|lia].
  - unfold shr_fexp. rewrite fexp64.
    pose proof (digits_small N ltac:(lia)) as D.
    assert (Hn : Z.max (Zdigits2 N + t - 53) (-1074) - t <= 0) by lia.
    unfold shr.
    destruct (Z.max (Zdigits2 N + t - 53) (-1074) - t) as [|p|p] eqn:E; try lia;
      cbn [shr_record_of_loc shr_m];
      (destruct N as [|m|m]; [reflexivity| |lia]);
      (destruct (Z.leb_spec t 971) as [_|L];
       [now rewrite Pos2Z.id || reflexivity|lia]).
Qed.

Lemma shr_spec v U rec e n :
  shrInv v U rec -> 0 <= n ->
  shrInv v (U * 2 ^ n) (fst (shr rec e n)) /\ snd (shr rec e n) = e + n.
Proof.
  intros H Hn. destruct n as [|p|p]; try lia; cbn [shr fst snd].
  - rewrite Z.pow_0_r, Z.mul_1_r. split; [exact H|lia].
  - split; [now apply iter_pos_shr_inv|reflexivity].
Qed.

(** [binary_round_aux] on a significand [q] with remainder [a / U] at an
    aligned exponent [e], with no overflow: the value is cut at the
    exponent [t] of its binade into [Q] units and a remainder, and the
    result is [Q] rounded up or not. *)
Lemma bra_spec q a U e :
  0 < q -> 0 <= a < U ->
  e <= fexp prec emax (Zdigits2 q + e) ->
  fexp prec emax (Zdigits2 q + e) <= 970 ->
  exists t Q b W,
    t = fexp prec emax (Zdigits2 q + e) /\
    W = U * 2 ^ (t - e) /\ q * U + a = Q * W + b /\ 0 <= b < W /\
    0 <= Q < 2 ^ 53 /\ (-1074 < t -> 2 ^ 52 <= Q) /\
    binary_round_aux prec emax false q e (locOf a U)
    = finalize (Q + roundUp Q b W) t.
Proof.
  intros Hq Ha Hal Hov.
  destruct q as [|m|m]; try lia.
  pose proof (digits_bounds m) as [D1 D2].
  cbn [Zdigits2] in *. set (d := Z.pos (digits2_pos m)) in *.
  rewrite fexp64 in *. set (t := Z.max (d + e - 53) (-1074)) in *.
  pose proof (shr_record_of_loc_inv (Z.pos m) a U ltac:(lia) Ha) as I.
  destruct (shr_spec _ _ _ e (t - e) I ltac:(lia)) as [I' E'].
  unfold binary_round_aux, shr_fexp at 1.
  cbn [Zdigits2]. fold d. rewrite fexp64. fold t.
  destruct (shr (shr_record_of_loc (Z.pos m) (locOf a U)) e (t - e)) as [mrs' e'].
  cbn [fst snd] in I', E'. subst e'.
  destruct (loc_of_shr_record_inv _ _ _ I') as (b & Hv & Hb & Hloc).
  destruct I' as (HW & HQ & _).
  set (Q := shr_m mrs') in *. set (W := U * 2 ^ (t - e)) in *.
  assert (P : 0 < 2 ^ (t - e)) by (apply pow2_pos; lia).
  assert (HQ53 : Q < 2 ^ 53).
  { assert (2 ^ d <= 2 ^ (t - e) * 2 ^ 53).
    { rewrite <- Z.pow_add_r by lia. apply pow2_le. lia. }
    assert (Q * W < 2 ^ 53 * W); [|nia].
    unfold W. nia. }
  assert (HQ52 : -1074 < t -> 2 ^ 52 <= Q).
  { intros Ht. assert (t = d + e - 53) by lia.
    assert (2 ^ (d - 1) = 2 ^ (t - e) * 2 ^ 52).
    { rewrite <- Z.pow_add_r by lia. f_equal. lia. }
    assert (2 ^ 52 * W < (Q + 1) * W); [|nia].
    unfold W. nia. }
  exists t, Q, b, W. repeat split; try lia; try assumption.
  replace (e + (t - e)) with t by lia.
  rewrite Hloc, round_nearest_even_locOf by exact Hb.
  pose proof (roundUp_range Q b W).
  apply finish_spec; lia.
Qed.

(** ** Rounding keeps the order *)


Lemma roundUp_scale M a U c : 0 < c -> roundUp M (a * c) (U * c) = roundUp M a U.
Proof.
  intros Hc. unfold roundUp.
  replace (U * c <? 2 * (a * c)) with (U <? 2 * a).
  2:{ destruct (Z.ltb_spec U (2 * a)), (Z.ltb_spec (U * c) (2 * (a * c))); try reflexivity; nia. }
  replace (2 * (a * c) =? U * c) with (2 * a =? U).
  2:{ destruct (Z.eqb_spec (2 * a) U), (Z.eqb_spec (2 * (a * c)) (U * c)); try reflexivity; nia. }
  reflexivity.
Qed.

Lemma roundUp_mono M a b U : a <= b -> roundUp M a U <= roundUp M b U.
Proof.
  intros H. unfold roundUp.
  destruct (Z.ltb_spec U (2 * a)), (Z.ltb_spec U (2 * b)),
    (Z.eqb_spec (2 * a) U), (Z.eqb_spec (2 * b) U); simpl; try lia;
    destruct (Z.odd M); simpl; lia.
Qed.

(** The same, as an instance of [Rounded]. *)
Lemma Rounded_of_bra K q a U e :
  0 < q -> 0 <= a < U ->
  e <= fexp prec emax (Zdigits2 q + e) ->
  fexp prec emax (Zdigits2 q + e) <= 970 ->
  0 <= e + K ->
  Rounded K ((q * U + a) * 2 ^ (e + K)) U
    (binary_round_aux prec emax false q e (locOf a U)).
Proof.
  intros Hq Ha Hal Hov HK.
  destruct (bra_spec q a U e Hq Ha Hal Hov)
    as (t & Q & b & W & Ht & HW & Hv & Hb & HQ & HQ' & E).
  assert (Htm : -1074 <= t) by (rewrite Ht, fexp64; lia).
  split; [lia|]. exists t, Q, (b * 2 ^ (e + K)).
  assert (P : 0 < 2 ^ (e + K)) by (apply pow2_pos; lia).
  assert (S : 2 ^ (t + K) * U = W * 2 ^ (e + K)).
  { rewrite HW. replace (t + K) with ((t - e) + (e + K)) by lia.
    rewrite Z.pow_add_r by lia. ring. }
  rewrite S, roundUp_scale by exact P.
  split; [lia|]. split; [lia|]. split; [rewrite Hv; ring|].
  split; [nia|]. split; [lia|]. split; [assumption|exact E].
Qed.

(** Numerator and denominator may be multiplied by the same factor. *)
Lemma Rounded_scale K v D F c :
  0 < c -> Rounded K v D F -> Rounded K (v * c) (D * c) F.
Proof.
  intros Hc (HD & t & Q & b & Ht & HK & Hv & Hb & HQ & HQ' & E).
  split; [nia|]. exists t, Q, (b * c).
  replace (2 ^ (t + K) * (D * c)) with (2 ^ (t + K) * D * c) by ring.
  rewrite roundUp_scale by exact Hc.
  split; [lia|]. split; [lia|]. split; [rewrite Hv; ring|].
  split; [nia|]. split; [lia|]. split; [assumption|exact E].
Qed.

Lemma SFleb_finite m1 e1 m2 e2 :
  e1 < e2 \/ (e1 = e2 /\ Z.pos m1 <= Z.pos m2) ->
  SFleb (S754_finite false m1 e1) (S754_finite false m2 e2) = true.
Proof.
  intros H. unfold SFleb, SFcompare.
  destruct (Z.compare_spec e1 e2); try lia; try reflexivity.
  change (Pos.compare_cont Eq m1 m2) with (Pos.compare m1 m2).
  destruct (Pos.compare_spec m1 m2) as [E|L|G]; try reflexivity.
  apply Pos2Z.pos_lt_pos in G. lia.
Qed.

Lemma finalize_leb N1 t1 N2 t2 :
  0 <= N1 <= 2 ^ 53 -> 0 <= N2 <= 2 ^ 53 ->
  (t1 = t2 /\ N1 <= N2) \/ (t1 < t2 /\ 2 ^ 52 <= N2) ->
  SFleb (finalize N1 t1) (finalize N2 t2) = true.
Proof.
  intros H1 H2 H. unfold finalize.
  change (2 ^ 53) with 9007199254740992 in *.
  change (2 ^ 52) with 4503599627370496 in *.
  destruct (Z.eqb_spec N1 0) as [->|Z1].
  { destruct (Z.eqb_spec N2 0); [reflexivity|].
    destruct (Z.eqb_spec N2 9007199254740992); reflexivity. }
  destruct (Z.eqb_spec N2 0) as [->|Z2]; [lia|].
  destruct N1 as [|m1|m1]; try lia. destruct N2 as [|m2|m2]; try lia.
  destruct (Z.eqb_spec (Z.pos m1) 9007199254740992) as [E1|E1];
    destruct (Z.eqb_spec (Z.pos m2) 9007199254740992) as [E2|E2];
    cbn [Z.to_pos]; apply SFleb_finite; lia.
Qed.

(** Rounding to nearest keeps the order: of two values over the same
    denominator the smaller has the smaller rounding. *)
Lemma Rounded_mono K v1 v2 D F1 F2 :
  Rounded K v1 D F1 -> Rounded K v2 D F2 -> v1 <= v2 ->
  SFleb F1 F2 = true.
Proof.
  intros (HD & t1 & Q1 & b1 & Ht1 & HK1 & Hv1 & Hb1 & HQ1 & HQ1' & ->)
         (_ & t2 & Q2 & b2 & Ht2 & HK2 & Hv2 & Hb2 & HQ2 & HQ2' & ->) Hv.
  pose proof (roundUp_range Q1 b1 (2 ^ (t1 + K) * D)).
  pose proof (roundUp_range Q2 b2 (2 ^ (t2 + K) * D)).
  assert (P1 : 0 < 2 ^ (t1 + K)) by (apply pow2_pos; lia).
  assert (P2 : 0 < 2 ^ (t2 + K)) by (apply pow2_pos; lia).
  apply finalize_leb; try lia.
  destruct (Z.lt_trichotomy t1 t2) as [L|[E|G]].
  - right. split; [lia|]. assert (2 ^ 52 <= Q2) by (apply HQ2'; lia). lia.
  - left. split; [lia|]. subst t2.
    set (S := 2 ^ (t1 + K) * D) in *.
    assert (0 < S) by (unfold S; nia).
    destruct (Z.lt_trichotomy Q1 Q2) as [L|[E|G]].
    + lia.
    + subst Q2. pose proof (roundUp_mono Q1 b1 b2 S ltac:(lia)). lia.
    + exfalso. nia.
  - exfalso.
    assert (2 ^ 52 <= Q1) by (apply HQ1'; lia).
    assert (E : 2 ^ (t1 + K) = 2 ^ (t1 - t2) * 2 ^ (t2 + K)).
    { rewrite <- Z.pow_add_r by lia. f_equal. lia. }
    assert (2 <= 2 ^ (t1 - t2)).
    { change 2 with (2 ^ 1) at 1. apply pow2_le. lia. }
    set (S2 := 2 ^ (t2 + K) * D) in *.
    assert (0 < S2) by (unfold S2; nia).
    assert (ES : 2 ^ (t1 + K) * D = 2 ^ (t1 - t2) * S2)
      by (unfold S2; rewrite E; ring).
    assert (V2 : v2 < 2 ^ 53 * S2) by nia.
    assert (V1 : 2 ^ 53 * S2 <= v1); [|lia].
    rewrite Hv1, ES. change (2 ^ 53) with (2 * 2 ^ 52). nia.
Qed.

(** ** Values *)


Lemma bounded_facts m e :
  bounded prec emax m e = true ->
  -1074 <= e <= 971 /\ Z.pos (digits2_pos m) <= 53 /\
  (-1074 < e -> Z.pos (digits2_pos m) = 53) /\
  fexp prec emax (Z.pos (digits2_pos m) + e) = e.
Proof.
  unfold bounded, canonical_mantissa. rewrite andb_true_iff, Z.eqb_eq, Z.leb_le.
  change (emax - prec) with 971. rewrite fexp64. lia.
Qed.

Lemma pow2_add a b : 0 <= a -> 0 <= b -> 2 ^ (a + b) = 2 ^ a * 2 ^ b.
Proof. intros. now rewrite Z.pow_add_r. Qed.

Lemma pow2_le_inv a b : 0 <= b -> 2 ^ a <= 2 ^ b -> a <= b.
Proof. intros Hb H. apply (Z.pow_le_mono_r_iff 2); lia. Qed.

Lemma valueOf_pos m e : -1074 <= e -> 0 < valueOf (S754_finite false m e).
Proof.
  intros H. cbn [valueOf]. apply Z.mul_pos_pos; [reflexivity|]. apply pow2_pos. lia.
Qed.

Lemma valueOf_nonneg x : nonNegative x -> 0 <= valueOf x.
Proof.
  destruct x as [s|s| |[] m e]; cbn [valueOf nonNegative]; lia.
Qed.

(** The order of the numbers is the order of their values. *)
Lemma SFleb_valueOf x y :
  nonNegative x -> nonNegative y -> SFleb x y = true -> valueOf x <= valueOf y.
Proof.
  destruct x as [sx|sx| |[] mx ex], y as [sy|sy| |[] my ey];
    try contradiction; intros Hx Hy H.
  - cbn [valueOf]; lia.
  - pose proof (valueOf_nonneg _ Hy) as P. cbn [valueOf] in *. exact P.
  - discriminate.
  - cbn [nonNegative] in Hx, Hy.
    apply bounded_facts in Hx as (Ex & Dx & Nx & _).
    apply bounded_facts in Hy as (Ey & Dy & Ny & _).
    pose proof (digits_bounds mx) as [Bx1 Bx2].
    pose proof (digits_bounds my) as [By1 By2].
    unfold SFleb, SFcompare in H. cbn [valueOf].
    destruct (Z.compare_spec ex ey) as [E|L|G].
    + subst ey. change (Pos.compare_cont Eq mx my) with (Pos.compare mx my) in H.
      pose proof (pow2_pos (ex + 1074) ltac:(lia)).
      destruct (Pos.compare_spec mx my) as [E|L|G]; try discriminate.
      * subst. lia.
      * apply Pos2Z.pos_lt_pos in L. apply Z.mul_le_mono_nonneg_r; lia.
    + rewrite (Ny ltac:(lia)) in By1.
      assert (Z.pos mx < 2 ^ 53).
      { eapply Z.lt_le_trans; [exact Bx2|]. apply pow2_le. lia. }
      replace (ey + 1074) with ((ey - ex - 1) + (1 + (ex + 1074))) by lia.
      rewrite (pow2_add (ey - ex - 1)), (pow2_add 1), Z.pow_1_r by lia.
      pose proof (pow2_pos (ex + 1074) ltac:(lia)).
      pose proof (pow2_pos (ey - ex - 1) ltac:(lia)).
      change (53 - 1) with 52 in By1. change (2 ^ 53) with (2 * 2 ^ 52) in H0.
      transitivity (2 ^ 52 * 2 * 2 ^ (ex + 1074)).
      { apply Z.mul_le_mono_nonneg_r; lia. }
      transitivity (Z.pos my * 1 * (2 * 2 ^ (ex + 1074))).
      { rewrite Z.mul_1_r, <- Z.mul_assoc. apply Z.mul_le_mono_nonneg_r; lia. }
      rewrite <- !Z.mul_assoc. apply Z.mul_le_mono_nonneg_l; [lia|].
      apply Z.mul_le_mono_nonneg_r; lia.
    + discriminate.
Qed.

Lemma Rounded_nonneg K v D F :
  Rounded K v D F -> forall s, SFleb (S754_zero s) F = true.
Proof.
  intros (_ & t & Q & b & _ & _ & _ & _ & _ & _ & ->) s. unfold finalize.
  destruct (_ =? 0); [reflexivity|]. destruct (_ =? 2 ^ 53); reflexivity.
Qed.


Lemma RoundedZ_mono K v1 v2 D F1 F2 :
  RoundedZ K v1 D F1 -> RoundedZ K v2 D F2 -> v1 <= v2 ->
  SFleb F1 F2 = true.
Proof.
  intros [[-> [s1 ->]]|[P1 R1]] [[-> [s2 ->]]|[P2 R2]] H; try lia.
  - reflexivity.
  - now apply (Rounded_nonneg _ _ _ _ R2).
  - now apply (Rounded_mono K v1 v2 D).
Qed.

Lemma RoundedZ_scale K v D F c :
  0 < c -> RoundedZ K v D F -> RoundedZ K (v * c) (D * c) F.
Proof.
  intros Hc [[-> H]|[P R]]; [left; split; [lia|exact H]|right].
  split; [nia|now apply Rounded_scale].
Qed.

(** A number is its own rounding. *)
Lemma Rounded_self K m e :
  bounded prec emax m e = true -> e <= 970 -> 1074 <= K ->
  Rounded K (Z.pos m * 2 ^ (e + K)) 1 (S754_finite false m e).
Proof.
  intros B He HK. apply bounded_facts in B as (E & D & N & _).
  pose proof (digits_bounds m) as [B1 B2].
  assert (M53 : Z.pos m < 2 ^ 53).
  { eapply Z.lt_le_trans; [exact B2|]. apply pow2_le. lia. }
  pose proof (pow2_pos (e + K) ltac:(lia)) as P.
  split; [lia|]. exists e, (Z.pos m), 0.
  split; [lia|]. split; [lia|]. split; [ring|]. split; [lia|].
  split; [lia|]. split.
  - intros He'. rewrite (N He') in B1. exact B1.
  - unfold roundUp, finalize.
    destruct (Z.ltb_spec (2 ^ (e + K) * 1) (2 * 0)); [lia|].
    destruct (Z.eqb_spec (2 * 0) (2 ^ (e + K) * 1)); [lia|]. cbn [orb andb].
    rewrite Z.add_0_r.
    destruct (Z.eqb_spec (Z.pos m) 0); [lia|].
    destruct (Z.eqb_spec (Z.pos m) (2 ^ 53)); [lia|]. reflexivity.
Qed.

Lemma digits_ge m k : 0 <= k -> 2 ^ k <= Z.pos m -> k + 1 <= Z.pos (digits2_pos m).
Proof.
  intros Hk H. pose proof (digits_bounds m) as [_ B].
  assert (L : 2 ^ k < 2 ^ Z.pos (digits2_pos m)) by lia.
  apply pow2_lt_inv in L; lia.
Qed.

Lemma digits_le m k : 0 <= k -> Z.pos m < 2 ^ k -> Z.pos (digits2_pos m) <= k.
Proof.
  intros Hk H. pose proof (digits_bounds m) as [B _].
  assert (L : 2 ^ (Z.pos (digits2_pos m) - 1) < 2 ^ k) by lia.
  apply pow2_lt_inv in L; lia.
Qed.

Lemma scaled_upper m e B :
  0 <= e -> 0 <= B -> Z.pos m * 2 ^ e <= 2 ^ B ->
  Z.pos (digits2_pos m) + e <= B + 1.
Proof.
  intros He HB H. pose proof (digits_bounds m) as [L _].
  assert (P : 0 < 2 ^ e) by (apply pow2_pos; lia).
  assert (Q : 2 ^ (Z.pos (digits2_pos m) - 1 + e) <= 2 ^ B).
  { rewrite pow2_add by lia. etransitivity; [|exact H].
    apply Z.mul_le_mono_nonneg_r; lia. }
  apply pow2_le_inv in Q; lia.
Qed.

Lemma scaled_lower m e B :
  0 <= e -> 0 <= B -> 2 ^ B <= Z.pos m * 2 ^ e ->
  B < Z.pos (digits2_pos m) + e.
Proof.
  intros He HB H. pose proof (digits_bounds m) as [_ U].
  assert (P : 0 < 2 ^ e) by (apply pow2_pos; lia).
  assert (Q : 2 ^ B < 2 ^ (Z.pos (digits2_pos m) + e)).
  { rewrite pow2_add by lia. eapply Z.le_lt_trans; [exact H|].
    apply Z.mul_lt_mono_pos_r; lia. }
  apply pow2_lt_inv in Q; lia.
Qed.

(** ** Multiplication *)

(** The product of two non-negative numbers up to 1024 is the rounding of
    the product of their values. *)
Lemma SFmul_Rounded x y :
  nonNegative x -> nonNegative y -> valueOf x <= 2 ^ 1084 -> valueOf y <= 2 ^ 1084 ->
  RoundedZ 2148 (valueOf x * valueOf y) 1 (SFmul prec emax x y).
Proof.
  destruct x as [sx|sx| |[] mx ex], y as [sy|sy| |[] my ey];
    try contradiction; intros Hx Hy Bx By.
  - left. split; [reflexivity|]. now eexists.
  - left. split; [reflexivity|]. now eexists.
  - left. split; [cbn [valueOf]; lia|]. now eexists.
  - cbn [nonNegative] in Hx, Hy.
    apply bounded_facts in Hx as (Ex & Dx & Nx & _).
    apply bounded_facts in Hy as (Ey & Dy & Ny & _).
    cbn [valueOf] in Bx, By.
    apply scaled_upper in Bx; [|lia|lia]. apply scaled_upper in By; [|lia|lia].
    pose proof (digits_bounds mx) as [Lx Ux].
    pose proof (digits_bounds my) as [Ly Uy].
    right. split.
    { apply Z.mul_pos_pos; apply valueOf_pos; lia. }
    assert (EQ : valueOf (S754_finite false mx ex) * valueOf (S754_finite false my ey)
                 = (Z.pos (mx * my) * 1 + 0) * 2 ^ (ex + ey + 2148)).
    { cbn [valueOf]. replace (ex + ey + 2148) with ((ex + 1074) + (ey + 1074)) by lia.
      rewrite (pow2_add (ex + 1074) (ey + 1074)) by lia. rewrite Pos2Z.inj_mul. ring. }
    rewrite EQ. cbn [SFmul xorb]. change loc_Exact with (locOf 0 1).
    assert (P1 : 1 <= Z.pos mx) by lia. assert (P2 : 1 <= Z.pos my) by lia.
    assert (DU : Zdigits2 (Z.pos (mx * my)) <= Z.pos (digits2_pos mx) + Z.pos (digits2_pos my)).
    { cbn [Zdigits2]. apply digits_le; [lia|]. rewrite Pos2Z.inj_mul, pow2_add by lia.
      apply Z.mul_lt_mono_nonneg; lia. }
    apply Rounded_of_bra; try lia.
    + rewrite fexp64.
      destruct (Z.eq_dec ex (-1074)) as [E1|N1].
      * destruct (Z_le_gt_dec ey 0) as [E2|N2]; [lia|].
        rewrite (Ny ltac:(lia)) in Ly. change (53 - 1) with 52 in Ly.
        assert (53 <= Zdigits2 (Z.pos (mx * my))).
        { cbn [Zdigits2]. apply (digits_ge _ 52); [lia|]. rewrite Pos2Z.inj_mul.
          replace (2 ^ 52) with (1 * 2 ^ 52) by ring.
          apply Z.mul_le_mono_nonneg; lia. }
        lia.
      * rewrite (Nx ltac:(lia)) in Lx. change (53 - 1) with 52 in Lx.
        assert (53 <= Zdigits2 (Z.pos (mx * my))).
        { cbn [Zdigits2]. apply (digits_ge _ 52); [lia|]. rewrite Pos2Z.inj_mul.
          replace (2 ^ 52) with (2 ^ 52 * 1) by ring.
          apply Z.mul_le_mono_nonneg; lia. }
        lia.
    + rewrite fexp64. lia.
Qed.

(** ** Addition *)

Lemma iter_xO m d : Z.pos (Pos.iter xO m d) = Z.pos m * 2 ^ Z.pos d.
Proof.
  induction d as [|d IH] using Pos.peano_ind.
  - cbn [Pos.iter]. rewrite Pos2Z.inj_xO. change (2 ^ 1) with 2. ring.
  - rewrite Pos.iter_succ, Pos2Z.inj_xO, IH, Pos2Z.inj_succ.
    rewrite Z.pow_succ_r by lia. ring.
Qed.

Lemma shl_align_spec m e e' :
  let '(m', e'') := shl_align m e e' in
  e'' = Z.min e e' /\ Z.pos m' = Z.pos m * 2 ^ (e - e'').
Proof.
  unfold shl_align. destruct (e' - e) as [|d|d] eqn:E.
  - split; [lia|]. rewrite Z.sub_diag. change (2 ^ 0) with 1. ring.
  - split; [lia|]. rewrite Z.sub_diag. change (2 ^ 0) with 1. ring.
  - split; [lia|]. rewrite iter_xO. f_equal. f_equal. lia.
Qed.

Lemma digits_unique m d :
  1 <= d -> 2 ^ (d - 1) <= Z.pos m < 2 ^ d -> Z.pos (digits2_pos m) = d.
Proof.
  intros Hd [L U]. pose proof (digits_le m d ltac:(lia) U).
  pose proof (digits_ge m (d - 1) ltac:(lia) L). lia.
Qed.

Lemma digits_shift m m' k :
  0 <= k -> Z.pos m' = Z.pos m * 2 ^ k ->
  Z.pos (digits2_pos m') = Z.pos (digits2_pos m) + k.
Proof.
  intros Hk E. pose proof (digits_bounds m) as [L U].
  assert (P : 0 < 2 ^ k) by (apply pow2_pos; lia).
  apply digits_unique; [lia|]. rewrite E. split.
  - replace (Z.pos (digits2_pos m) + k - 1) with (Z.pos (digits2_pos m) - 1 + k) by lia.
    rewrite pow2_add by lia. apply Z.mul_le_mono_nonneg_r; lia.
  - rewrite pow2_add by lia. apply Z.mul_lt_mono_pos_r; lia.
Qed.

(** [binary_round] rounds the integer it is given. *)
Lemma binary_round_Rounded s e :
  -1074 <= e -> Z.pos (digits2_pos s) + e <= 1023 ->
  Rounded 1074 (Z.pos s * 2 ^ (e + 1074)) 1 (binary_round prec emax false s e).
Proof.
  intros He Hd. unfold binary_round.
  pose proof (shl_align_spec s e (fexp prec emax (Z.pos (digits2_pos s) + e))) as A.
  destruct (shl_align s e _) as [mz ez]. destruct A as [A1 A2].
  rewrite fexp64 in A1.
  assert (D : Z.pos (digits2_pos mz) = Z.pos (digits2_pos s) + (e - ez)).
  { apply digits_shift; [lia|exact A2]. }
  assert (EQ : Z.pos s * 2 ^ (e + 1074) = (Z.pos mz * 1 + 0) * 2 ^ (ez + 1074)).
  { rewrite A2. replace (e + 1074) with ((e - ez) + (ez + 1074)) by lia.
    rewrite (pow2_add (e - ez)) by lia. ring. }
  rewrite EQ. change loc_Exact with (locOf 0 1).
  apply Rounded_of_bra; try lia.
  - cbn [Zdigits2]. rewrite fexp64, D. lia.
  - cbn [Zdigits2]. rewrite fexp64, D. lia.
Qed.

(** The sum of two non-negative numbers up to 1024 is the rounding of the
    sum of their values. *)
Lemma SFadd_Rounded x y :
  nonNegative x -> nonNegative y -> valueOf x <= 2 ^ 1084 -> valueOf y <= 2 ^ 1084 ->
  RoundedZ 1074 (valueOf x + valueOf y) 1 (SFadd prec emax x y).
Proof.
  destruct x as [sx|sx| |[] mx ex], y as [sy|sy| |[] my ey];
    try contradiction; intros Hx Hy Bx By.
  - left. split; [reflexivity|]. destruct sx, sy; now eexists.
  - right. cbn [nonNegative] in Hy. cbn [SFadd].
    pose proof Hy as F. apply bounded_facts in F as (Ey & Dy & Ny & _).
    split; [pose proof (valueOf_pos my ey); cbn [valueOf] in *; lia|].
    cbn [valueOf] in By. apply scaled_upper in By; [|lia|lia].
    change (valueOf (S754_zero sx)) with 0. rewrite Z.add_0_l. cbn [valueOf].
    apply Rounded_self; [exact Hy| |lia].
    pose proof (Pos2Z.is_pos (digits2_pos my)). lia.
  - right. cbn [nonNegative] in Hx. cbn [SFadd].
    pose proof Hx as F. apply bounded_facts in F as (Ex & Dx & Nx & _).
    split; [pose proof (valueOf_pos mx ex); cbn [valueOf] in *; lia|].
    cbn [valueOf] in Bx. apply scaled_upper in Bx; [|lia|lia].
    change (valueOf (S754_zero sy)) with 0. rewrite Z.add_0_r. cbn [valueOf].
    apply Rounded_self; [exact Hx| |lia].
    pose proof (Pos2Z.is_pos (digits2_pos mx)). lia.
  - cbn [nonNegative] in Hx, Hy.
    apply bounded_facts in Hx as (Ex & Dx & Nx & _).
    apply bounded_facts in Hy as (Ey & Dy & Ny & _).
    right. split.
    { pose proof (valueOf_pos mx ex). pose proof (valueOf_pos my ey). lia. }
    cbn [SFadd cond_Zopp].
    pose proof (shl_align_spec mx ex (Z.min ex ey)) as A.
    pose proof (shl_align_spec my ey (Z.min ex ey)) as B.
    destruct (shl_align mx ex _) as [ax ex']. destruct (shl_align my ey _) as [ay ey'].
    destruct A as [A1 A2], B as [B1 B2]. cbn [fst].
    change (Z.pos ax + Z.pos ay) with (Z.pos (ax + ay)). cbn [binary_normalize].
    assert (EQ : valueOf (S754_finite false mx ex) + valueOf (S754_finite false my ey)
                 = Z.pos (ax + ay) * 2 ^ (Z.min ex ey + 1074)).
    { cbn [valueOf]. rewrite Pos2Z.inj_add, A2, B2.
      replace ex' with (Z.min ex ey) by lia. replace ey' with (Z.min ex ey) by lia.
      replace (ex + 1074) with ((ex - Z.min ex ey) + (Z.min ex ey + 1074)) at 1 by lia.
      replace (ey + 1074) with ((ey - Z.min ex ey) + (Z.min ex ey + 1074)) at 1 by lia.
      rewrite (pow2_add (ex - Z.min ex ey)), (pow2_add (ey - Z.min ex ey)) by lia. ring. }
    rewrite EQ. apply binary_round_Rounded; [lia|].
    assert (S : Z.pos (ax + ay) * 2 ^ (Z.min ex ey + 1074) <= 2 ^ 1085).
    { rewrite <- EQ. change (2 ^ 1085) with (2 ^ 1084 + 2 ^ 1084). lia. }
    apply scaled_upper in S; lia.
Qed.

(** ** Division *)

(** The location that the division computes for its remainder. *)
Lemma new_location_locOf U r :
  0 < U -> 0 <= r < U -> new_location U r = locOf r U.
Proof.
  intros HU Hr. unfold new_location, new_location_even, new_location_odd, locOf.
  destruct (Z.even U) eqn:E; [reflexivity|].
  destruct (Z.eqb_spec r 0); [reflexivity|]. f_equal.
  assert (O : Z.odd U = true) by (rewrite <- Z.negb_even, E; reflexivity).
  apply Z.odd_spec in O as [k Hk].
  destruct (Z.compare_spec (2 * r + 1) U), (Z.compare_spec (2 * r) U);
    try reflexivity; lia.
Qed.

(** The quotient of two positive numbers whose magnitudes are within
    2^1000 of each other is the rounding of the quotient of their
    values. *)
Lemma SFdiv_Rounded mx ex my ey :
  bounded prec emax mx ex = true -> bounded prec emax my ey = true ->
  -1000 <= Z.pos (digits2_pos mx) + ex - (Z.pos (digits2_pos my) + ey) <= 1000 ->
  Rounded 2300 (Z.pos mx * 2 ^ (ex - ey + 2300)) (Z.pos my)
    (SFdiv prec emax (S754_finite false mx ex) (S754_finite false my ey)).
Proof.
  intros Hx Hy Hd.
  apply bounded_facts in Hx as (Ex & Dx & Nx & _).
  apply bounded_facts in Hy as (Ey & Dy & Ny & _).
  pose proof (digits_bounds mx) as [Lx Ux].
  pose proof (digits_bounds my) as [Ly Uy].
  pose proof (Pos2Z.is_pos (digits2_pos mx)) as Px.
  pose proof (Pos2Z.is_pos (digits2_pos my)) as Py.
  cbn [SFdiv xorb]. unfold SFdiv_core_binary. cbn [Zdigits2]. rewrite fexp64.
  set (dx := Z.pos (digits2_pos mx)) in *. set (dy := Z.pos (digits2_pos my)) in *.
  remember (Z.min (Z.max (dx + ex - (dy + ey) - 53) (-1074)) (ex - ey)) as e' eqn:He'.
  assert (E' : e' = dx + ex - (dy + ey) - 53) by lia. clear He'.
  remember (ex - ey - e') as s eqn:Hs.
  assert (S : s = 53 + dy - dx) by lia. clear Hs.
  assert (M : match s with
              | Z.pos _ => Z.shiftl (Z.pos mx) s
              | 0 => Z.pos mx
              | Z.neg _ => 0
              end = Z.pos mx * 2 ^ s).
  { destruct s; try lia. apply Z.shiftl_mul_pow2. lia. }
  rewrite M. clear M.
  pose proof (Z_div_mod (Z.pos mx * 2 ^ s) (Z.pos my) ltac:(lia)) as DM.
  destruct (Z.div_eucl _ _) as [q r]. destruct DM as [DM1 DM2].
  rewrite new_location_locOf by lia.
  assert (T1 : 2 ^ (dx - 1) * 2 ^ s = 2 ^ 52 * 2 ^ dy).
  { rewrite <- !pow2_add by lia. f_equal. lia. }
  assert (T2 : 2 ^ dx * 2 ^ s = 2 ^ 54 * 2 ^ (dy - 1)).
  { rewrite <- !pow2_add by lia. f_equal. lia. }
  assert (Ps : 0 < 2 ^ s) by (apply pow2_pos; lia).
  assert (Pd : 0 < 2 ^ (dy - 1)) by (apply pow2_pos; lia).
  assert (A1 : 2 ^ 52 * 2 ^ dy <= Z.pos mx * 2 ^ s).
  { rewrite <- T1. apply Z.mul_le_mono_nonneg_r; lia. }
  assert (A2 : Z.pos mx * 2 ^ s < 2 ^ 54 * 2 ^ (dy - 1)).
  { rewrite <- T2. apply Z.mul_lt_mono_pos_r; lia. }
  assert (Q1 : 2 ^ 52 <= q).
  { destruct (Z_le_gt_dec (2 ^ 52) q) as [|G]; [assumption|exfalso].
    assert (Z.pos my * (q + 1) <= Z.pos my * 2 ^ 52).
    { apply Z.mul_le_mono_nonneg_l; lia. }
    assert (Z.pos my * 2 ^ 52 < 2 ^ dy * 2 ^ 52).
    { apply Z.mul_lt_mono_pos_r; [reflexivity|lia]. }
    lia. }
  assert (Q2 : q < 2 ^ 54).
  { destruct (Z_lt_le_dec q (2 ^ 54)) as [|G]; [assumption|exfalso].
    assert (2 ^ (dy - 1) * 2 ^ 54 <= Z.pos my * q).
    { apply Z.mul_le_mono_nonneg; lia. }
    lia. }
  assert (Dq : 53 <= Zdigits2 q <= 54).
  { destruct q as [|qp|qp]; try lia. cbn [Zdigits2]. split.
    - apply (digits_ge qp 52); lia.
    - apply digits_le; lia. }
  assert (EQ : Z.pos mx * 2 ^ (ex - ey + 2300) = (q * Z.pos my + r) * 2 ^ (e' + 2300)).
  { replace (ex - ey + 2300) with (s + (e' + 2300)) by lia.
    rewrite (pow2_add s) by lia. rewrite Z.mul_assoc, DM1. ring. }
  rewrite EQ. apply Rounded_of_bra; try lia.
  - rewrite fexp64. lia.
  - rewrite fexp64. lia.
Qed.

(** Two quotients are compared by cross multiplication. *)
Lemma Rounded_cross K v1 D1 F1 v2 D2 F2 :
  Rounded K v1 D1 F1 -> Rounded K v2 D2 F2 -> v1 * D2 <= v2 * D1 ->
  SFleb F1 F2 = true.
Proof.
  intros R1 R2 H.
  assert (P1 : 0 < D1) by apply R1. assert (P2 : 0 < D2) by apply R2.
  apply (Rounded_scale K v1 D1 F1 D2 P2) in R1.
  apply (Rounded_scale K v2 D2 F2 D1 P1) in R2.
  rewrite (Z.mul_comm D2 D1) in R2.
  exact (Rounded_mono K _ _ _ _ _ R1 R2 H).
Qed.

(** The quotient grows with the numerator and falls with the
    denominator, for operands between 2^-10 and 1024. *)
Lemma SFdiv_mono mx1 ex1 my1 ey1 mx2 ex2 my2 ey2 :
  let x1 := S754_finite false mx1 ex1 in let y1 := S754_finite false my1 ey1 in
  let x2 := S754_finite false mx2 ex2 in let y2 := S754_finite false my2 ey2 in
  nonNegative x1 -> nonNegative y1 -> nonNegative x2 -> nonNegative y2 ->
  2 ^ 1064 <= valueOf x1 -> valueOf x1 <= valueOf x2 -> valueOf x2 <= 2 ^ 1084 ->
  2 ^ 1064 <= valueOf y2 -> valueOf y2 <= valueOf y1 -> valueOf y1 <= 2 ^ 1084 ->
  SFleb (SFdiv prec emax x1 y1) (SFdiv prec emax x2 y2) = true.
Proof.
  intros x1 y1 x2 y2 Nx1 Ny1 Nx2 Ny2 Lx Hx Ux Ly Hy Uy.
  subst x1 y1 x2 y2. cbn [nonNegative valueOf] in *.
  pose proof (bounded_facts _ _ Nx1) as (Ex1 & _).
  pose proof (bounded_facts _ _ Ny1) as (Ey1 & _).
  pose proof (bounded_facts _ _ Nx2) as (Ex2 & _).
  pose proof (bounded_facts _ _ Ny2) as (Ey2 & _).
  assert (P64 : 0 < 2 ^ 1064) by (apply pow2_pos; lia).
  assert (Bx1 : -10 < Z.pos (digits2_pos mx1) + ex1 <= 11).
  { split.
    - assert (L : 2 ^ 1064 <= Z.pos mx1 * 2 ^ (ex1 + 1074)) by lia.
      apply scaled_lower in L; lia.
    - assert (U : Z.pos mx1 * 2 ^ (ex1 + 1074) <= 2 ^ 1084) by lia.
      apply scaled_upper in U; lia. }
  assert (Bx2 : -10 < Z.pos (digits2_pos mx2) + ex2 <= 11).
  { split.
    - assert (L : 2 ^ 1064 <= Z.pos mx2 * 2 ^ (ex2 + 1074)) by lia.
      apply scaled_lower in L; lia.
    - assert (U : Z.pos mx2 * 2 ^ (ex2 + 1074) <= 2 ^ 1084) by lia.
      apply scaled_upper in U; lia. }
  assert (By1 : -10 < Z.pos (digits2_pos my1) + ey1 <= 11).
  { split.
    - assert (L : 2 ^ 1064 <= Z.pos my1 * 2 ^ (ey1 + 1074)) by lia.
      apply scaled_lower in L; lia.
    - assert (U : Z.pos my1 * 2 ^ (ey1 + 1074) <= 2 ^ 1084) by lia.
      apply scaled_upper in U; lia. }
  assert (By2 : -10 < Z.pos (digits2_pos my2) + ey2 <= 11).
  { split.
    - assert (L : 2 ^ 1064 <= Z.pos my2 * 2 ^ (ey2 + 1074)) by lia.
      apply scaled_lower in L; lia.
    - assert (U : Z.pos my2 * 2 ^ (ey2 + 1074) <= 2 ^ 1084) by lia.
      apply scaled_upper in U; lia. }
  apply (Rounded_cross 2300 (Z.pos mx1 * 2 ^ (ex1 - ey1 + 2300)) (Z.pos my1) _
                            (Z.pos mx2 * 2 ^ (ex2 - ey2 + 2300)) (Z.pos my2) _).
  - apply SFdiv_Rounded; [assumption|assumption|lia].
  - apply SFdiv_Rounded; [assumption|assumption|lia].
  - set (a1 := ex1 + 1074) in *. set (a2 := ex2 + 1074) in *.
    set (b1 := ey1 + 1074) in *. set (b2 := ey2 + 1074) in *.
    assert (Pb : 0 < 2 ^ (b1 + b2)) by (apply pow2_pos; lia).
    apply (Z.mul_le_mono_pos_r _ _ _ Pb).
    assert (E1 : Z.pos mx1 * 2 ^ (ex1 - ey1 + 2300) * Z.pos my2 * 2 ^ (b1 + b2)
                 = (Z.pos mx1 * 2 ^ a1) * (Z.pos my2 * 2 ^ b2) * 2 ^ 2300).
    { transitivity (Z.pos mx1 * Z.pos my2 * (2 ^ (ex1 - ey1 + 2300) * 2 ^ (b1 + b2))); [ring|].
      rewrite <- pow2_add by lia.
      replace (ex1 - ey1 + 2300 + (b1 + b2)) with (a1 + (b2 + 2300)) by lia.
      rewrite (pow2_add a1), (pow2_add b2) by lia. ring. }
    assert (E2 : Z.pos mx2 * 2 ^ (ex2 - ey2 + 2300) * Z.pos my1 * 2 ^ (b1 + b2)
                 = (Z.pos mx2 * 2 ^ a2) * (Z.pos my1 * 2 ^ b1) * 2 ^ 2300).
    { transitivity (Z.pos mx2 * Z.pos my1 * (2 ^ (ex2 - ey2 + 2300) * 2 ^ (b1 + b2))); [ring|].
      rewrite <- pow2_add by lia.
      replace (ex2 - ey2 + 2300 + (b1 + b2)) with (a2 + (b1 + 2300)) by lia.
      rewrite (pow2_add a2), (pow2_add b1) by lia. ring. }
    rewrite E1, E2.
    apply Z.mul_le_mono_nonneg_r; [apply Z.lt_le_incl, pow2_pos; lia|].
    apply Z.mul_le_mono_nonneg; lia.
Qed.

Local Close Scope Z_scope.


(** ** From the primitive numbers to their values *)

(** A number between two non-negative finite numbers is one itself, and
    its value lies between theirs. *)
Lemma between_values (lo x hi : float) :
  (lo <=? x)%float = true -> (x <=? hi)%float = true ->
  nonNegative (Prim2SF lo) -> nonNegative (Prim2SF hi) ->
  nonNegative (Prim2SF x) /\
  (valueOf (Prim2SF lo) <= valueOf (Prim2SF x) <= valueOf (Prim2SF hi))%Z.
Proof.
  rewrite !FloatAxioms.leb_spec. intros L H Nl Nh.
  pose proof (Prim2SF_valid x) as Vx.
  assert (N : nonNegative (Prim2SF x)).
  { destruct (Prim2SF x) as [s|s| |[] m e];
      destruct (Prim2SF lo) as [sl|sl| |[] ml el]; try contradiction;
      destruct (Prim2SF hi) as [sh|sh| |[] mh eh]; try contradiction;
      try exact I; try exact Vx; try discriminate;
      destruct s; discriminate. }
  split; [exact N|]. split; apply SFleb_valueOf; assumption.
Qed.

Lemma valueOf_1024 : valueOf (Prim2SF 1024) = (2 ^ 1084)%Z.
Proof. vm_compute. reflexivity. Qed.

Lemma valueOf_small : valueOf (Prim2SF 0.0009765625) = (2 ^ 1064)%Z.
Proof. vm_compute. reflexivity. Qed.

Lemma nonNegative_0 : nonNegative (Prim2SF 0).
Proof. exact I. Qed.

Lemma nonNegative_1024 : nonNegative (Prim2SF 1024).
Proof. vm_compute. reflexivity. Qed.

Lemma nonNegative_small : nonNegative (Prim2SF 0.0009765625).
Proof. vm_compute. reflexivity. Qed.

Lemma small_values (x y : float) :
  (0 <=? x)%float = true -> (x <=? y)%float = true -> (y <=? 1024)%float = true ->
  nonNegative (Prim2SF x) /\ nonNegative (Prim2SF y) /\
  (valueOf (Prim2SF x) <= valueOf (Prim2SF y) <= 2 ^ 1084)%Z /\ (0 <= valueOf (Prim2SF x))%Z.
Proof.
  intros H0 H1 H2.
  destruct (between_values 0 x 1024 H0 (leb_trans _ _ _ H1 H2)
              nonNegative_0 nonNegative_1024) as (Nx & Lx & Ux).
  destruct (between_values 0 y 1024 (leb_trans _ _ _ H0 H1) H2
              nonNegative_0 nonNegative_1024) as (Ny & Ly & Uy).
  rewrite valueOf_1024 in *.
  split; [exact Nx|]. split; [exact Ny|]. split; [split|].
  - apply SFleb_valueOf; try assumption. now rewrite <- FloatAxioms.leb_spec.
  - exact Uy.
  - exact Lx.
Qed.

(** ** Products, sums and quotients keep the order *)

(** [x * y <= x' * y'] when [0 <= x <= x' <= 1024] and [0 <= y <= y' <= 1024]. *)
Lemma mul_le (x x' y y' : float) :
  (0 <=? x)%float = true -> (x <=? x')%float = true -> (x' <=? 1024)%float = true ->
  (0 <=? y)%float = true -> (y <=? y')%float = true -> (y' <=? 1024)%float = true ->
  (x * y <=? x' * y')%float = true.
Proof.
  intros X0 X1 X2 Y0 Y1 Y2.
  destruct (small_values x x' X0 X1 X2) as (Nx & Nx' & [Lx Ux] & Px).
  destruct (small_values y y' Y0 Y1 Y2) as (Ny & Ny' & [Ly Uy] & Py).
  rewrite FloatAxioms.leb_spec, !FloatAxioms.mul_spec. unfold SF64mul.
  eapply RoundedZ_mono.
  - apply SFmul_Rounded; try assumption; lia.
  - apply SFmul_Rounded; try assumption; lia.
  - apply Z.mul_le_mono_nonneg; assumption.
Qed.

(** [x + y <= x' + y'] under the same bounds. *)
Lemma add_le (x x' y y' : float) :
  (0 <=? x)%float = true -> (x <=? x')%float = true -> (x' <=? 1024)%float = true ->
  (0 <=? y)%float = true -> (y <=? y')%float = true -> (y' <=? 1024)%float = true ->
  (x + y <=? x' + y')%float = true.
Proof.
  intros X0 X1 X2 Y0 Y1 Y2.
  destruct (small_values x x' X0 X1 X2) as (Nx & Nx' & [Lx Ux] & Px).
  destruct (small_values y y' Y0 Y1 Y2) as (Ny & Ny' & [Ly Uy] & Py).
  rewrite FloatAxioms.leb_spec, !FloatAxioms.add_spec. unfold SF64add.
  eapply RoundedZ_mono.
  - apply SFadd_Rounded; try assumption; lia.
  - apply SFadd_Rounded; try assumption; lia.
  - lia.
Qed.

Lemma finite_of_value (x : spec_float) :
  nonNegative x -> (0 < valueOf x)%Z ->
  exists m e, x = S754_finite false m e.
Proof.
  destruct x as [s|s| |[] m e]; try contradiction; cbn [valueOf]; intros _ H; try lia.
  now exists m, e.
Qed.

(** [x / y <= x' / y'] when [2^-10 <= x <= x' <= 1024] and
    [2^-10 <= y' <= y <= 1024]. *)
Lemma div_le (x x' y y' : float) :
  (0.0009765625 <=? x)%float = true -> (x <=? x')%float = true ->
  (x' <=? 1024)%float = true ->
  (0.0009765625 <=? y')%float = true -> (y' <=? y)%float = true ->
  (y <=? 1024)%float = true ->
  (x / y <=? x' / y')%float = true.
Proof.
  intros X0 X1 X2 Y0 Y1 Y2.
  destruct (between_values _ x 1024 X0 (leb_trans _ _ _ X1 X2)
              nonNegative_small nonNegative_1024) as (Nx & Lx & Ux).
  destruct (between_values _ x' 1024 (leb_trans _ _ _ X0 X1) X2
              nonNegative_small nonNegative_1024) as (Nx' & Lx' & Ux').
  destruct (between_values _ y' 1024 Y0 (leb_trans _ _ _ Y1 Y2)
              nonNegative_small nonNegative_1024) as (Ny' & Ly' & Uy').
  destruct (between_values _ y 1024 (leb_trans _ _ _ Y0 Y1) Y2
              nonNegative_small nonNegative_1024) as (Ny & Ly & Uy).
  rewrite valueOf_1024, valueOf_small in *.
  assert (Hx : (valueOf (Prim2SF x) <= valueOf (Prim2SF x'))%Z).
  { apply SFleb_valueOf; try assumption. now rewrite <- FloatAxioms.leb_spec. }
  assert (Hy : (valueOf (Prim2SF y') <= valueOf (Prim2SF y))%Z).
  { apply SFleb_valueOf; try assumption. now rewrite <- FloatAxioms.leb_spec. }
  assert (P : (0 < 2 ^ 1064)%Z) by (apply pow2_pos; lia).
  rewrite FloatAxioms.leb_spec, !FloatAxioms.div_spec. unfold SF64div.
  destruct (finite_of_value _ Nx ltac:(lia)) as (mx & ex & Ex).
  destruct (finite_of_value _ Nx' ltac:(lia)) as (mx' & ex' & Ex').
  destruct (finite_of_value _ Ny ltac:(lia)) as (my & ey & Ey).
  destruct (finite_of_value _ Ny' ltac:(lia)) as (my' & ey' & Ey').
  rewrite Ex, Ex', Ey, Ey' in *.
  apply SFdiv_mono; assumption.
Qed.

(** ** The luminance and the ratio *)

Lemma leb_refl_of (a x : float) : (a <=? x)%float = true -> (x <=? x)%float = true.
Proof.
  rewrite !FloatAxioms.leb_spec. unfold SFleb. intros H.
  destruct (SFcompare (Prim2SF a) (Prim2SF x)) as [c|] eqn:C; [|discriminate].
  rewrite SFcompare_refl; [reflexivity|].
  intros E. rewrite E in C. destruct (Prim2SF a) as [s|s| |s m e]; discriminate.
Qed.

Lemma leb_total (a b x y : float) :
  (a <=? x)%float = true -> (b <=? y)%float = true ->
  (x <=? y)%float = true \/ (y <=? x)%float = true.
Proof.
  rewrite !FloatAxioms.leb_spec. unfold SFleb. intros Hx Hy.
  rewrite (SFcompare_antisym (Prim2SF x) (Prim2SF y)).
  destruct (SFcompare (Prim2SF x) (Prim2SF y)) as [[]|] eqn:C; simpl; auto.
  exfalso. apply SFcompare_None in C as [E|E]; rewrite E in *.
  - destruct (Prim2SF a) as [s|s| |s m e]; discriminate.
  - destruct (Prim2SF b) as [s|s| |s m e]; discriminate.
Qed.

Lemma inUnit_spec (x : float) :
  inUnit x = true <-> (0 <=? x)%float = true /\ (x <=? 1)%float = true.
Proof. unfold inUnit. apply andb_true_iff. Qed.

(** The weighted sum of three numbers of the unit interval is in the unit
    interval: each product and each sum is compared with the one of the end
    points, and the weights add up to exactly 1 in binary64. *)
Lemma weighted_sum_inUnit (R G B : float) :
  inUnit R = true -> inUnit G = true -> inUnit B = true ->
  inUnit (0.2126 * R + 0.7152 * G + 0.0722 * B)%float = true.
Proof.
  rewrite !inUnit_spec. intros [R0 R1] [G0 G1] [B0 B1].
  assert (U : (1 <=? 1024)%float = true) by reflexivity.
  assert (Z0 : (0 <=? 0)%float = true) by reflexivity.
  assert (Z1 : (0 <=? 1)%float = true) by reflexivity.
  assert (RU : (R <=? 1024)%float = true) by exact (leb_trans R 1 1024 R1 U).
  assert (GU : (G <=? 1024)%float = true) by exact (leb_trans G 1 1024 G1 U).
  assert (BU : (B <=? 1024)%float = true) by exact (leb_trans B 1 1024 B1 U).
  assert (r0 : (0 <=? 0.2126 * R)%float = true)
    by exact (mul_le 0 0.2126 0 R Z0 eq_refl eq_refl Z0 R0 RU).
  assert (r1 : (0.2126 * R <=? 0.2126)%float = true)
    by exact (mul_le 0.2126 0.2126 R 1 eq_refl eq_refl eq_refl R0 R1 U).
  assert (g0 : (0 <=? 0.7152 * G)%float = true)
    by exact (mul_le 0 0.7152 0 G Z0 eq_refl eq_refl Z0 G0 GU).
  assert (g1 : (0.7152 * G <=? 0.7152)%float = true)
    by exact (mul_le 0.7152 0.7152 G 1 eq_refl eq_refl eq_refl G0 G1 U).
  assert (b0 : (0 <=? 0.0722 * B)%float = true)
    by exact (mul_le 0 0.0722 0 B Z0 eq_refl eq_refl Z0 B0 BU).
  assert (b1 : (0.0722 * B <=? 0.0722)%float = true)
    by exact (mul_le 0.0722 0.0722 B 1 eq_refl eq_refl eq_refl B0 B1 U).
  assert (s0 : (0 <=? 0.2126 * R + 0.7152 * G)%float = true)
    by exact (add_le 0 (0.2126 * R) 0 (0.7152 * G) Z0 r0
                (leb_trans _ 0.2126 1024 r1 eq_refl)
                Z0 g0 (leb_trans _ 0.7152 1024 g1 eq_refl)).
  assert (s1 : (0.2126 * R + 0.7152 * G <=? 0.2126 + 0.7152)%float = true)
    by exact (add_le (0.2126 * R) 0.2126 (0.7152 * G) 0.7152
                r0 r1 eq_refl g0 g1 eq_refl).
  assert (t0 : (0 <=? 0.2126 * R + 0.7152 * G + 0.0722 * B)%float = true)
    by exact (add_le 0 (0.2126 * R + 0.7152 * G) 0 (0.0722 * B) Z0 s0
                (leb_trans _ (0.2126 + 0.7152) 1024 s1 eq_refl)
                Z0 b0 (leb_trans _ 0.0722 1024 b1 eq_refl)).
  assert (t1 : (0.2126 * R + 0.7152 * G + 0.0722 * B <=? 1)%float = true)
    by exact (add_le (0.2126 * R + 0.7152 * G) (0.2126 + 0.7152)
                (0.0722 * B) 0.0722 s0 s1 eq_refl b0 b1 eq_refl).
  split; [exact t0|exact t1].
Qed.

(** The quotient of the contrast ratio, for two luminances in order. *)
Lemma ratio_ordered (lo hi : float) :
  inUnit lo = true -> inUnit hi = true -> (lo <=? hi)%float = true ->
  (1 <=? (hi + 0.05) / (lo + 0.05))%float = true /\
  ((hi + 0.05) / (lo + 0.05) <=? 21)%float = true.
Proof.
  rewrite !inUnit_spec. intros [L0 L1] [H0 H1] LH.
  assert (U : (1 <=? 1024)%float = true) by reflexivity.
  assert (Z0 : (0 <=? 0)%float = true) by reflexivity.
  assert (C : (0 <=? 0.05)%float = true) by reflexivity.
  assert (C' : (0.05 <=? 0.05)%float = true) by reflexivity.
  assert (C1 : (0.05 <=? 1024)%float = true) by reflexivity.
  assert (LU : (lo <=? 1024)%float = true) by exact (leb_trans lo 1 1024 L1 U).
  assert (HU : (hi <=? 1024)%float = true) by exact (leb_trans hi 1 1024 H1 U).
  assert (q0 : (0.05 <=? lo + 0.05)%float = true)
    by exact (add_le 0 lo 0.05 0.05 Z0 L0 LU C C' C1).
  assert (qp : (lo + 0.05 <=? hi + 0.05)%float = true)
    by exact (add_le lo hi 0.05 0.05 L0 LH HU C C' C1).
  assert (p1 : (hi + 0.05 <=? 1.05)%float = true)
    by exact (add_le hi 1 0.05 0.05 H0 H1 U C C' C1).
  assert (S : (0.0009765625 <=? 0.05)%float = true) by reflexivity.
  assert (T : (1.05 <=? 1024)%float = true) by reflexivity.
  pose proof (leb_trans 0.0009765625 0.05 (lo + 0.05) S q0) as Sq.
  pose proof (leb_trans (lo + 0.05) (hi + 0.05) 1.05 qp p1) as q1.
  pose proof (leb_refl_of _ _ q0) as qq.
  pose proof (leb_trans (hi + 0.05) 1.05 1024 p1 T) as pU.
  pose proof (leb_trans (lo + 0.05) 1.05 1024 q1 T) as qU.
  split.
  - pose proof (div_le (lo + 0.05) (hi + 0.05) (lo + 0.05) (lo + 0.05)
                  Sq qp pU Sq qq qU) as D.
    rewrite FloatAxioms.leb_spec in D |- *.
    rewrite (FloatAxioms.div_spec (lo + 0.05) (lo + 0.05)) in D.
    destruct (between_values 0.0009765625 (lo + 0.05) 1024 Sq qU
                nonNegative_small nonNegative_1024) as (N & Lq & _).
    rewrite valueOf_small in Lq.
    assert (P : (0 < 2 ^ 1064)%Z) by (apply pow2_pos; lia).
    destruct (finite_of_value _ N ltac:(lia)) as (m & e & E).
    rewrite E, SFdiv_self in D. exact D.
  - exact (div_le (hi + 0.05) 1.05 (lo + 0.05) 0.05
             (leb_trans 0.0009765625 (lo + 0.05) (hi + 0.05) Sq qp) p1 T S q0 qU).
Qed.

(** The same for [Math.max] and [Math.min] of two luminances, in either
    order and also when they are the two zeros. *)
Lemma ratio_inRange (x y : float) :
  inUnit x = true -> inUnit y = true ->
  (1 <=? (Math.max x y + 0.05) / (Math.min x y + 0.05))%float = true /\
  ((Math.max x y + 0.05) / (Math.min x y + 0.05) <=? 21)%float = true.
Proof.
  intros X Y. pose proof X as X'. pose proof Y as Y'.
  apply inUnit_spec in X' as [X0 _]. apply inUnit_spec in Y' as [Y0 _].
  destruct (leb_total _ _ _ _ X0 Y0) as [L|L].
  - destruct (max_min_of_leb _ _ L) as [[-> ->]|[-> ->]].
    + now apply ratio_ordered.
    + split; reflexivity.
  - rewrite Math_max_comm, Math_min_comm.
    destruct (max_min_of_leb _ _ L) as [[-> ->]|[-> ->]].
    + now apply ratio_ordered.
    + split; reflexivity.
Qed.

(** The linear piece of [toLinear], on the channel values 0 to 10. *)
Lemma linear_piece_unit :
  forallb (fun n => inUnit (numberOfZ (Z.of_nat n) / 255 / 12.92)%float)
          (seq 0 11) = true.
Proof. vm_compute. reflexivity. Qed.

(** The arguments that [toLinear] passes to [Math.pow] are in the unit
    interval. *)
Lemma pow_arguments_unit :
  forallb (fun n => inUnit ((numberOfZ (Z.of_nat n) / 255 + 0.055) / 1.055)%float)
          (seq 11 245) = true.
Proof. vm_compute. reflexivity. Qed.

(** So a [Math.pow] that maps the unit interval into itself at the
    exponent 2.4 does so on these arguments. *)
Lemma pow_unit_of_range (pow : float -> float -> float) :
  (forall x : float, inUnit x = true -> inUnit (pow x 2.4%float) = true) ->
  forall n : Z, (11 <= n <= 255)%Z ->
    inUnit (pow ((numberOfZ n / 255 + 0.055) / 1.055) 2.4)%float = true.
Proof.
  intros H n Hn. apply H.
  assert (Hin : In (Z.to_nat n) (seq 11 245)) by (apply in_seq; lia).
  pose proof (proj1 (forallb_forall _ _) pow_arguments_unit _ Hin) as T.
  cbv beta in T. now rewrite Z2Nat.id in T by lia.
Qed.

(** Without a bound on [Math.pow] the ratio leaves the interval: were
    every power 2, white on black would have a ratio near 41. *)
Example contrastRatio_unbounded_pow :
  (contrastRatio (fun _ _ => 2%float) "#ffffff" "#000000" <=? 21)%float = false.
Proof. vm_compute. reflexivity. Qed.

Section Range.

Variable pow : float -> float -> float.

(** What the range needs of [Math.pow]: on the 245 arguments the code
    passes to it, the result is within the unit interval. *)
Hypothesis pow_unit :
  forall n : Z, (11 <= n <= 255)%Z ->
    inUnit (pow ((numberOfZ n / 255 + 0.055) / 1.055) 2.4)%float = true.

(** Every channel is linearised to a value of the unit interval. *)
Lemma toLinear_inUnit (n : Z) :
  (0 <= n <= 255)%Z -> inUnit (toLinear pow (numberOfZ n)) = true.
Proof.
  intros H.
  assert (Hin : In (Z.to_nat n) (seq 0 256)) by (apply in_seq; lia).
  pose proof (proj1 (forallb_forall _ _) linear_piece_table _ Hin) as T.
  cbv beta in T. rewrite Z2Nat.id in T by lia.
  apply Bool.eqb_prop in T. unfold toLinear. cbv zeta. rewrite T.
  destruct (Z.leb_spec n 10) as [L|L].
  - rewrite (proj2 (Nat.leb_le _ _)) by lia.
    assert (Hin' : In (Z.to_nat n) (seq 0 11)) by (apply in_seq; lia).
    pose proof (proj1 (forallb_forall _ _) linear_piece_unit _ Hin') as T'.
    cbv beta in T'. now rewrite Z2Nat.id in T' by lia.
  - rewrite (proj2 (Nat.leb_gt _ _)) by lia. apply pow_unit. lia.
Qed.

(** So the relative luminance of a NormalizedColor is in the unit interval. *)
Lemma relativeLuminance_inUnit (s : string) :
  NormalizedColor s -> inUnit (relativeLuminance pow s) = true.
Proof.
  intros H.
  apply NormalizedColor_digits in H
    as (c1 & c2 & c3 & c4 & c5 & c6 & -> & H1 & H2 & H3 & H4 & H5 & H6).
  destruct (parseInt16_pair c1 c2 H1 H2) as (a1 & a2 & _ & _ & A1 & A2 & A).
  destruct (parseInt16_pair c3 c4 H3 H4) as (b1 & b2 & _ & _ & B1 & B2 & B).
  destruct (parseInt16_pair c5 c6 H5 H6) as (e1 & e2 & _ & _ & E1 & E2 & E).
  unfold relativeLuminance. cbv zeta.
  change (slice (String "#" (String c1 (String c2 (String c3 (String c4
            (String c5 (String c6 EmptyString))))))) 1 3)
    with (String c1 (String c2 EmptyString)).
  change (slice (String "#" (String c1 (String c2 (String c3 (String c4
            (String c5 (String c6 EmptyString))))))) 3 5)
    with (String c3 (String c4 EmptyString)).
  change (slice (String "#" (String c1 (String c2 (String c3 (String c4
            (String c5 (String c6 EmptyString))))))) 5 7)
    with (String c5 (String c6 EmptyString)).
  rewrite A, B, E.
  apply weighted_sum_inUnit; apply toLinear_inUnit; lia.
Qed.

(** C6. For every pair of NormalizedColors the relative luminances lie in
    [0, 1] and the contrast ratio lies in [1, 21], in binary64 with every
    product, sum and quotient rounded, provided [Math.pow] returns a value
    of [0, 1] on the arguments the linearisation passes to it. *)
Theorem contrastRatio_range (a b : string) :
  NormalizedColor a -> NormalizedColor b ->
  inUnit (relativeLuminance pow a) = true /\
  inUnit (relativeLuminance pow b) = true /\
  (1 <=? contrastRatio pow a b)%float = true /\
  (contrastRatio pow a b <=? 21)%float = true.
Proof.
  intros Ha Hb.
  pose proof (relativeLuminance_inUnit a Ha) as La.
  pose proof (relativeLuminance_inUnit b Hb) as Lb.
  split; [exact La|]. split; [exact Lb|].
  unfold contrastRatio. cbv zeta. now apply ratio_inRange.
Qed.

End Range.

(** The bound holds for the square-root implementation of the power. *)
Lemma powBySquareRoots_unit :
  forallb (fun n => inUnit (powBySquareRoots
                      ((numberOfZ (Z.of_nat n) / 255 + 0.055) / 1.055) 2.4)%float)
          (seq 11 245) = true.
Proof. vm_compute. reflexivity. Qed.

Lemma contrastRatio_range_witness :
  inUnit (relativeLuminance powBySquareRoots "#ffa500") = true /\
  inUnit (relativeLuminance powBySquareRoots "#000080") = true /\
  (1 <=? contrastRatio powBySquareRoots "#ffa500" "#000080")%float = true /\
  (contrastRatio powBySquareRoots "#ffa500" "#000080" <=? 21)%float = true.
Proof.
  apply (contrastRatio_range powBySquareRoots).
  - intros n Hn.
    assert (Hin : In (Z.to_nat n) (seq 11 245)) by (apply in_seq; lia).
    pose proof (proj1 (forallb_forall _ _) powBySquareRoots_unit _ Hin) as T.
    cbv beta in T. now rewrite Z2Nat.id in T by lia.
  - split; [reflexivity|]. exists "ffa500". split; [reflexivity|].
    intros i c. do 6 (destruct i as [|i]; [intros [= <-]; reflexivity|]).
    discriminate.
  - split; [reflexivity|]. exists "000080". split; [reflexivity|].
    intros i c. do 6 (destruct i as [|i]; [intros [= <-]; reflexivity|]).
    discriminate.
Defined.

(** * The render between a change and its effect *)

Section StaleMarks.

Variable pow : float -> float -> float.

(** X23. The validity marks are set by an effect, which runs after the
    render. When the panel is shown and the foreground is changed to an
    input that [normalizeColor] rejects, the render that follows still
    shows the panel and enables the submit button, with the initial white
    on black, 21, AAA and AAA; the effect then hides the panel. *)
Theorem render_before_effect (f : string) (s : Index.State) :
  Index.panelShown s = true ->
  normalizeColor f = Throw InvalidColor ->
  let s' := Index.setFgInput f s in
  Index.panelShown s' = true /\
  Index.submitDisabled s' = false /\
  Index.render pow s' = Index.defaults /\
  Index.panelShown (Index.effect s') = false.
Proof.
  intros P T. cbv zeta.
  unfold Index.panelShown, Index.submitDisabled, Index.setFgInput,
    Index.effect, Index.render, Index.returns in *.
  cbn [Index.fgIsValid Index.bgIsValid Index.fgInput Index.bgInput
       Index.normalizeColorDyn].
  rewrite T. apply andb_prop in P as [-> ->].
  split; [reflexivity|]. split; [reflexivity|]. split; reflexivity.
Qed.

End StaleMarks.

Lemma render_before_effect_witness :
  Index.panelShown (Index.setFgInput "zzz" (Index.initialState None)) = true /\
  Index.submitDisabled (Index.setFgInput "zzz" (Index.initialState None)) = false /\
  Index.render powBySquareRoots
    (Index.setFgInput "zzz" (Index.initialState None)) = Index.defaults /\
  Index.panelShown
    (Index.effect (Index.setFgInput "zzz" (Index.initialState None))) = false.
Proof.
  exact (render_before_effect powBySquareRoots "zzz" (Index.initialState None)
           eq_refl eq_refl).
Defined.
